(** * calibre.db.tables: in-memory tables of the book catalogue

    A shallow embedding of [src/calibre/db/tables.py] (the value adapters and
    the OneToOne / ManyToOne / ManyToMany table hierarchy) together with the
    properties of it that the specification states.

    Conventions of the embedding:
    - a value coming from the backing store is a [raw]; a Python object
      produced by an adapter is a [value];
    - Python exceptions are results of type [exn + A];
    - code outside this file (the C speed-up parser, [parse_date], the
      [datetime] class, [author_to_author_sort]) is reached only through the
      calls of [ext_call], answered by a handler, so that one can say which
      calls a function makes and with which arguments;
    - the attributes a [read] assigns on [self] are the fields of a state
      record threaded through the state-and-exception monad [M]; a raised
      exception keeps the state reached so far, as an in-place mutation does;
    - dictionaries are [gmap]s, the lists stored in them are Rocq lists. *)

From Stdlib Require Import ZArith String Ascii List Bool Lia.
From Stdlib Require Import Floats.SpecFloat.
From stdpp Require Import base option list gmap strings fin_maps.

Local Open Scope Z_scope.
Local Open Scope string_scope.
Local Open Scope list_scope.

(* ===================================================================== *)
(** ** Python values *)
(* ===================================================================== *)

(** The exceptions this module can meet. *)
Inductive exn : Type :=
| AttributeError
| KeyError
| TypeError
| ValueError
| OtherError (msg : string).

(** What the backing store returns in a column: NULL, INTEGER, REAL or TEXT. *)
Inductive raw : Type :=
| RNull
| RInt (z : Z)
| RReal (f : spec_float)
| RText (s : string).

(** A [datetime] with its fixed offset from UTC in seconds. *)
Record datetime : Type := mkDatetime {
  dt_year : Z; dt_month : Z; dt_day : Z;
  dt_hour : Z; dt_minute : Z; dt_second : Z;
  dt_utcoffset : Z
}.

(** The Python objects stored in the maps. *)
Inductive value : Type :=
| VNone
| VInt (z : Z)
| VReal (f : spec_float)
| VText (s : string)
| VBool (b : bool)
| VDateTime (d : datetime).

(** A raw value seen as the Python object the DB driver hands over. *)
Definition of_raw (x : raw) : value :=
  match x with
  | RNull => VNone
  | RInt z => VInt z
  | RReal f => VReal f
  | RText s => VText s
  end.

(** Python truth value of a raw value: [None], [0], [0.0] and [''] are
    false, everything else is true. *)
Definition truthy (x : raw) : bool :=
  match x with
  | RNull => false
  | RInt z => negb (Z.eqb z 0)
  | RReal (S754_zero _) => false
  | RReal _ => true
  | RText EmptyString => false
  | RText (String _ _) => true
  end.

(** [x is None] *)
Definition is_none (x : raw) : bool :=
  match x with RNull => true | _ => false end.

(** The builtin [bool]. *)
Definition py_bool (x : raw) : value := VBool (truthy x).

(** [str(x)] as used by ['%s' % x] and [str.format]: only text and [None]
    occur in the metadata entries this module formats. *)
Definition py_str (x : option string) : string :=
  match x with
  | Some s => s
  | None => "None"
  end.

(* --------------------------------------------------------------------- *)
(** *** Strings *)
(* --------------------------------------------------------------------- *)

(** Characters are code points below 256.  [unicode.isspace] holds there for
    TAB..CR, FS..US, space, NEL and NBSP. *)
Definition is_space (c : ascii) : bool :=
  let n := N_of_ascii c in
  ((9 <=? n) && (n <=? 13) || (28 <=? n) && (n <=? 32)
   || (n =? 133) || (n =? 160))%N.

Fixpoint lstrip (s : string) : string :=
  match s with
  | EmptyString => EmptyString
  | String c s' => if is_space c then lstrip s' else s
  end.

Fixpoint rstrip (s : string) : string :=
  match s with
  | EmptyString => EmptyString
  | String c s' =>
      match rstrip s' with
      | EmptyString => if is_space c then EmptyString else String c EmptyString
      | r => String c r
      end
  end.

(** [s.strip()] *)
Definition strip (s : string) : string := rstrip (lstrip s).

(** [s.replace(old, new)] for a non-empty [old]: occurrences are found from
    the left and do not overlap.  [skip] counts the characters of a matched
    occurrence that are still to be dropped. *)
Fixpoint replace_from (old new : string) (skip : nat) (s : string) : string :=
  match s with
  | EmptyString => EmptyString
  | String c s' =>
      match skip with
      | S k => replace_from old new k s'
      | O =>
          if String.prefix old s
          then new +:+ replace_from old new (String.length old - 1) s'
          else String c (replace_from old new O s')
      end
  end.

(** With an empty [old], [new] is put before every character and at the
    end. *)
Fixpoint intersperse_all (new s : string) : string :=
  match s with
  | EmptyString => new
  | String c s' => new +:+ String c (intersperse_all new s')
  end.

Definition str_replace (s old new : string) : string :=
  match old with
  | EmptyString => intersperse_all new s
  | _ => replace_from old new O s
  end.

(** Every character equal to [a] becomes [b]; the reading of
    [s.replace(a, b)] for one-character arguments that the properties below
    are stated with. *)
Fixpoint map_char (a b : ascii) (s : string) : string :=
  match s with
  | EmptyString => EmptyString
  | String c s' => String (if Ascii.eqb c a then b else c) (map_char a b s')
  end.

(** [needle in hay] on strings. *)
Fixpoint str_contains (needle hay : string) : bool :=
  String.prefix needle hay ||
  match hay with
  | EmptyString => false
  | String _ hay' => str_contains needle hay'
  end.

(* ===================================================================== *)
(** ** Calls that leave this module *)
(* ===================================================================== *)

(** The seven numbers the C parser returns:
    year, month, day, hour, minutes, seconds, tzsecs. *)
Definition date_fields : Type := (Z * Z * Z * Z * Z * Z * Z)%type.

Inductive ext_call : Type -> Type :=
| SpeedupParseDate (s : string) : ext_call (option date_fields)
    (* _c_speedup.parse_date(s): a tuple, or None *)
| ParseDate (val : raw) (as_utc : bool) : ext_call value
    (* calibre.utils.date.parse_date(val, as_utc=...) *)
| NewDatetime (f : date_fields) : ext_call datetime
    (* datetime(year, ..., seconds, tzinfo=tzoffset(None, tzsecs)) *)
| AsLocalTimezone (d : datetime) : ext_call datetime
    (* d.astimezone(local_tz) *)
| AuthorToAuthorSort (name : raw) : ext_call value.
    (* calibre.ebooks.metadata.author_to_author_sort(name) *)

(** A program that makes such calls.  The continuation receives what the
    call returned or the exception it raised. *)
Inductive prog (A : Type) : Type :=
| Ret (a : A)
| Vis {X : Type} (c : ext_call X) (k : exn + X -> prog A).

Arguments Ret {A} a.
Arguments Vis {A X} c k.

(** An environment answers every call. *)
Definition handler : Type := forall X : Type, ext_call X -> exn + X.

(** One entry of the log of calls made. *)
Definition logged : Type := sigT ext_call.

Definition log {X : Type} (c : ext_call X) : logged := existT X c.

(** Runs [p] against [h]: the calls made, in order, and the result. *)
Fixpoint run {A : Type} (h : handler) (p : prog A) : list logged * A :=
  match p with
  | Ret a => ([], a)
  | Vis c k =>
      let '(tr, a) := run h (k (h _ c)) in
      (log c :: tr, a)
  end.

Definition calls {A : Type} (h : handler) (p : prog A) : list logged :=
  fst (run h p).

Definition result {A : Type} (h : handler) (p : prog A) : A :=
  snd (run h p).

(* ===================================================================== *)
(** ** Value adapters *)
(* ===================================================================== *)

(** An adapter maps a value from the db to a Python object, or raises. *)
Definition adapter : Type := raw -> prog (exn + value).

(** [val.strip()]: only text has the method. *)
Definition raw_strip (val : raw) : exn + string :=
  match val with
  | RText s => inr (strip s)
  | _ => inl AttributeError
  end.

(** The tail of [_c_convert_timestamp], after the [try] statement: [ret] is
    what the fast parser returned, or [None] when the attempt raised. *)
Definition convert_timestamp_finish (val : raw) (ret : option date_fields)
  : prog (exn + value) :=
  match ret with
  | None => Vis (ParseDate val false) Ret
  | Some f =>
      Vis (NewDatetime f) (fun r =>
        match r with
        | inl e => Ret (inl e)
        | inr d =>
            Vis (AsLocalTimezone d) (fun r' =>
              match r' with
              | inl e => Ret (inl e)
              | inr d' => Ret (inr (VDateTime d'))
              end)
        end)
  end.

(** What the [try: ... except: ret = None] leaves in [ret]. *)
Definition swallow (r : exn + option date_fields) : option date_fields :=
  match r with
  | inl _ => None
  | inr ret => ret
  end.

Definition _c_convert_timestamp (val : raw) : prog (exn + value) :=
  if negb (truthy val) then Ret (inr VNone)
  else
    match raw_strip val with
    | inl _ => convert_timestamp_finish val None
    | inr s =>
        Vis (SpeedupParseDate s)
            (fun r => convert_timestamp_finish val (swallow r))
    end.

(** ['bool': bool] *)
Definition adapt_bool : adapter := fun x => Ret (inr (py_bool x)).

(** [lambda x: x] *)
Definition adapt_identity : adapter := fun x => Ret (inr (of_raw x)).

(** [x.replace('|', ',')]: only text has a [replace] taking two strings. *)
Definition raw_replace (x : raw) (old new : string) : exn + value :=
  match x with
  | RText s => inr (VText (str_replace s old new))
  | _ => inl AttributeError
  end.

(** [lambda x: x.replace('|', ',') if x else None] *)
Definition adapt_authors_legacy : adapter :=
  fun x => Ret (if truthy x then raw_replace x "|" "," else inr VNone).

(* ===================================================================== *)
(** ** Table *)
(* ===================================================================== *)

(** The metadata of a field: a dict from names to text or [None]. *)
Abbreviation metadata_t := (gmap string (option string)).

(** [d[key]] *)
Definition dict_getitem {K V : Type} `{Countable K} (d : gmap K V) (key : K)
  : exn + V :=
  match d !! key with
  | Some v => inr v
  | None => inl KeyError
  end.

Record Table : Type := mkTable {
  name : string;
  metadata : metadata_t;
  adapt : adapter;
  link_table : string
}.

(** [{'datetime': _c_convert_timestamp, 'bool': bool}.get(datatype,
    lambda x: x)] *)
Definition adapters_by_datatype : gmap string adapter :=
  {[ "datetime" := _c_convert_timestamp; "bool" := adapt_bool ]}.

Definition adapter_for_datatype (datatype : option string) : adapter :=
  default adapt_identity (datatype ≫= fun key => adapters_by_datatype !! key).

(** [Table.__init__(self, name, metadata, link_table=None)] *)
Definition Table_init (name : string) (metadata : metadata_t)
  (link_table : option string) : exn + Table :=
  match dict_getitem metadata "datatype" with
  | inl e => inl e
  | inr datatype =>
      let adapt0 := adapter_for_datatype datatype in
      let adapt1 :=
        if String.eqb name "authors" then adapt_authors_legacy else adapt0 in
      match link_table with
      | Some (String c s) => inr (mkTable name metadata adapt1 (String c s))
      | _ =>
          match dict_getitem metadata "table" with
          | inl e => inl e
          | inr table =>
              inr (mkTable name metadata adapt1
                     ("books_" +:+ py_str table +:+ "_link"))
          end
      end
  end.

(* ===================================================================== *)
(** ** The state-and-exception monad of the [read] methods *)
(* ===================================================================== *)

(** A method body acting on the attributes [S] of [self]: it returns or
    raises, and leaves the attributes as they are at that point. *)
Definition M (S A : Type) : Type := S -> (exn + A) * S.

#[global] Instance M_ret {S : Type} : MRet (M S) :=
  fun A a s => (inr a, s).

#[global] Instance M_bind {S : Type} : MBind (M S) :=
  fun A B f m s =>
    match m s with
    | (inl e, s') => (inl e, s')
    | (inr a, s') => f a s'
    end.

Definition get_self {S : Type} : M S S := fun s => (inr s, s).

Definition modify {S : Type} (f : S -> S) : M S unit := fun s => (inr tt, f s).

(** An expression that may raise, evaluated inside a method. *)
Definition eval {S A : Type} (r : exn + A) : M S A := fun s => (r, s).

(** A program that calls out of the module, run against the environment. *)
Definition perform {S A : Type} (h : handler) (p : prog (exn + A)) : M S A :=
  fun s => (result h p, s).

(** [for row in rows: body(row)] *)
Fixpoint for_each {S R : Type} (rows : list R) (body : R -> M S unit)
  : M S unit :=
  match rows with
  | [] => mret tt
  | row :: rest => body row ;; for_each rest body
  end.

(** [if c: body] *)
Definition when {S : Type} (c : bool) (body : M S unit) : M S unit :=
  if c then body else mret tt.

(** [d.append(x)] where [d] is a dict: a dict has no attribute [append], so
    the attribute lookup raises and nothing is appended anywhere. *)
Definition dict_append {K V : Type} `{Countable K} (d : gmap K V) (x : Z)
  : exn + unit :=
  inl AttributeError.

(** [key not in d] *)
Definition not_in {K V : Type} `{Countable K} (key : K) (d : gmap K V) : bool :=
  match d !! key with
  | Some _ => false
  | None => true
  end.

(* ===================================================================== *)
(** ** The backing store *)
(* ===================================================================== *)

(** [db.conn.execute(query)] returns rows whose arity is fixed by the SELECT
    list of the query; the connection is one function per row shape that
    this module asks for.  Book and item ids are integers.  A query that the
    store rejects is not modelled: every query has its rows. *)
Record database : Type := mkDatabase {
  execute_values : string -> list (Z * raw);
    (* SELECT <id column>, <value column> ... *)
  execute_links : string -> list (Z * Z);
    (* SELECT book, <link column> ... *)
  execute_authors : string -> list (Z * raw * raw * raw);
    (* SELECT id, name, sort, link ... *)
  execute_files : string -> list (Z * option string * raw)
    (* SELECT book, <text or NULL>, <value> ... *)
}.

(* ===================================================================== *)
(** ** OneToOneTable and SizeTable *)
(* ===================================================================== *)

(** The only attribute a OneToOneTable fills is [book_col_map]. *)
Abbreviation one_to_one_maps := (gmap Z value).

(** ['SELECT {0}, {1} FROM {2}'.format(idcol, column, table)] *)
Definition OneToOneTable_query (self : Table) : exn + string :=
  match dict_getitem (metadata self) "table" with
  | inl e => inl e
  | inr table =>
      let idcol :=
        if bool_decide (table = Some "books") then "id" else "book" in
      match dict_getitem (metadata self) "column" with
      | inl e => inl e
      | inr column =>
          inr ("SELECT " +:+ idcol +:+ ", " +:+ py_str column +:+ " FROM "
               +:+ py_str table)
      end
  end.

(** The body shared by both [read] loops:
    [self.book_col_map[row[0]] = self.adapt(row[1])] *)
Definition store_adapted (h : handler) (self : Table) (row : Z * raw)
  : M one_to_one_maps unit :=
  v ← perform h (adapt self row.2);
  modify (fun m : one_to_one_maps => <[row.1 := v]> m).

Definition OneToOneTable_read (h : handler) (self : Table) (db : database)
  : M one_to_one_maps unit :=
  modify (fun _ : one_to_one_maps => ∅) ;;
  q ← eval (OneToOneTable_query self);
  for_each (execute_values db q) (store_adapted h self).

Definition SizeTable_query : string :=
  "SELECT books.id, (SELECT MAX(uncompressed_size) FROM data " +:+
  "WHERE data.book=books.id) FROM books".

Definition SizeTable_read (h : handler) (self : Table) (db : database)
  : M one_to_one_maps unit :=
  modify (fun _ : one_to_one_maps => ∅) ;;
  for_each (execute_values db SizeTable_query) (store_adapted h self).

(* ===================================================================== *)
(** ** ManyToOneTable and its subclasses *)
(* ===================================================================== *)

(** The attributes [read] creates.  [K] is the type of the keys of the
    inverse index, [V] what the forward index stores per book. *)
Record maps (K V : Type) `{Countable K} : Type := mkMaps {
  id_map : gmap Z value;
  extra_map : gmap Z value;
  col_book_map : gmap K (list Z);
  book_col_map : gmap Z V;
  alink_map : gmap Z value
}.

Arguments mkMaps {K V _ _} _ _ _ _ _.
Arguments id_map {K V _ _} _.
Arguments extra_map {K V _ _} _.
Arguments col_book_map {K V _ _} _.
Arguments book_col_map {K V _ _} _.
Arguments alink_map {K V _ _} _.

Definition empty_maps {K V : Type} `{Countable K} : maps K V :=
  mkMaps ∅ ∅ ∅ ∅ ∅.

(** The four assignments at the head of [ManyToOneTable.read]:
    [self.id_map = {}], [self.extra_map = {}], [self.col_book_map = {}],
    [self.book_col_map = {}]. *)
Definition reset_maps {K V : Type} `{Countable K} (s : maps K V) : maps K V :=
  mkMaps ∅ ∅ ∅ ∅ (alink_map s).

Definition set_id_map {K V : Type} `{Countable K}
  (f : gmap Z value -> gmap Z value) (s : maps K V) : maps K V :=
  mkMaps (f (id_map s)) (extra_map s) (col_book_map s) (book_col_map s)
         (alink_map s).

Definition set_extra_map {K V : Type} `{Countable K}
  (f : gmap Z value -> gmap Z value) (s : maps K V) : maps K V :=
  mkMaps (id_map s) (f (extra_map s)) (col_book_map s) (book_col_map s)
         (alink_map s).

Definition set_col_book_map {K V : Type} `{Countable K}
  (f : gmap K (list Z) -> gmap K (list Z)) (s : maps K V) : maps K V :=
  mkMaps (id_map s) (extra_map s) (f (col_book_map s)) (book_col_map s)
         (alink_map s).

Definition set_book_col_map {K V : Type} `{Countable K}
  (f : gmap Z V -> gmap Z V) (s : maps K V) : maps K V :=
  mkMaps (id_map s) (extra_map s) (col_book_map s) (f (book_col_map s))
         (alink_map s).

Definition set_alink_map {K V : Type} `{Countable K}
  (f : gmap Z value -> gmap Z value) (s : maps K V) : maps K V :=
  mkMaps (id_map s) (extra_map s) (col_book_map s) (book_col_map s)
         (f (alink_map s)).

(** [if key not in self.col_book_map: self.col_book_map[key] = []] *)
Definition ensure_col {K V : Type} `{Countable K} (key : K)
  : M (maps K V) unit :=
  s ← get_self;
  when (not_in key (col_book_map s)) (modify (set_col_book_map <[key := []]>)).

(** [self.col_book_map.append(book)] *)
Definition col_book_map_append {K V : Type} `{Countable K} (book : Z)
  : M (maps K V) unit :=
  s ← get_self;
  eval (dict_append (col_book_map s) book).

(** [if book not in self.book_col_map: self.book_col_map[book] = []] *)
Definition ensure_book {K X : Type} `{Countable K} (book : Z)
  : M (maps K (list X)) unit :=
  s ← get_self;
  when (not_in book (book_col_map s))
       (modify (set_book_col_map <[book := []]>)).

(** [self.book_col_map[book].append(x)] *)
Definition book_col_map_append {K X : Type} `{Countable K} (book : Z) (x : X)
  : M (maps K (list X)) unit :=
  s ← get_self;
  l ← eval (dict_getitem (book_col_map s) book);
  modify (set_book_col_map <[book := l ++ [x]]>).

(** ['SELECT id, {0} FROM {1}'.format(name, table)] *)
Definition ManyToOneTable_id_query (self : Table) : exn + string :=
  match dict_getitem (metadata self) "name" with
  | inl e => inl e
  | inr nm =>
      match dict_getitem (metadata self) "table" with
      | inl e => inl e
      | inr table =>
          inr ("SELECT id, " +:+ py_str nm +:+ " FROM " +:+ py_str table)
      end
  end.

(** ['SELECT book, {0} FROM {1}'.format(link_column, self.link_table)] *)
Definition ManyToOneTable_link_query (self : Table) : exn + string :=
  match dict_getitem (metadata self) "link_column" with
  | inl e => inl e
  | inr col =>
      inr ("SELECT book, " +:+ py_str col +:+ " FROM " +:+ link_table self)
  end.

Definition ManyToOneTable_read_id_maps {K V : Type} `{Countable K}
  (h : handler) (self : Table) (db : database) : M (maps K V) unit :=
  q ← eval (ManyToOneTable_id_query self);
  for_each (execute_values db q) (fun row =>
    when (truthy row.2)
      (v ← perform h (adapt self row.2);
       modify (set_id_map <[row.1 := v]>))).

(** One turn of the loop of [ManyToOneTable.read_maps]; [row] is
    (book, item). *)
Definition ManyToOneTable_link_row (row : Z * Z) : M (maps Z Z) unit :=
  ensure_col row.2 ;;
  col_book_map_append row.1 ;;
  modify (set_book_col_map <[row.1 := row.2]>).

Definition ManyToOneTable_read_maps (self : Table) (db : database)
  : M (maps Z Z) unit :=
  q ← eval (ManyToOneTable_link_query self);
  for_each (execute_links db q) ManyToOneTable_link_row.

Definition ManyToOneTable_read (h : handler) (self : Table) (db : database)
  : M (maps Z Z) unit :=
  modify reset_maps ;;
  ManyToOneTable_read_id_maps h self db ;;
  ManyToOneTable_read_maps self db.

(** One turn of the loop of [ManyToManyTable.read_maps]. *)
Definition ManyToManyTable_link_row (row : Z * Z) : M (maps Z (list Z)) unit :=
  ensure_col row.2 ;;
  col_book_map_append row.1 ;;
  ensure_book row.1 ;;
  book_col_map_append row.1 row.2.

Definition ManyToManyTable_read_maps (self : Table) (db : database)
  : M (maps Z (list Z)) unit :=
  q ← eval (ManyToOneTable_link_query self);
  for_each (execute_links db q) ManyToManyTable_link_row.

Definition ManyToManyTable_read (h : handler) (self : Table) (db : database)
  : M (maps Z (list Z)) unit :=
  modify reset_maps ;;
  ManyToOneTable_read_id_maps h self db ;;
  ManyToManyTable_read_maps self db.

(** One turn of the loop of [AuthorsTable.read_id_maps]; [row] is
    (id, name, sort, link). *)
Definition AuthorsTable_id_row {K V : Type} `{Countable K} (h : handler)
  (row : Z * raw * raw * raw) : M (maps K V) unit :=
  let '(id, nm, sort, link) := row in
  modify (set_id_map <[id := of_raw nm]>) ;;
  extra ← (if truthy sort then mret (of_raw sort)
           else perform h (Vis (AuthorToAuthorSort nm) Ret));
  modify (set_extra_map <[id := extra]>) ;;
  modify (set_alink_map <[id := of_raw link]>).

Definition AuthorsTable_read_id_maps {K V : Type} `{Countable K} (h : handler)
  (self : Table) (db : database) : M (maps K V) unit :=
  modify (set_alink_map (fun _ => ∅)) ;;
  for_each (execute_authors db "SELECT id, name, sort, link FROM authors")
    (AuthorsTable_id_row h).

Definition AuthorsTable_read (h : handler) (self : Table) (db : database)
  : M (maps Z (list Z)) unit :=
  modify reset_maps ;;
  AuthorsTable_read_id_maps h self db ;;
  ManyToManyTable_read_maps self db.

(** What [FormatsTable] and [IdentifiersTable] store per book: pairs. *)
Abbreviation pair_maps := (maps string (list (string * raw))).

(** [def read_id_maps(self, db): pass] *)
Definition FormatsTable_read_id_maps (self : Table) (db : database)
  : M pair_maps unit :=
  mret tt.

(** One turn of the loop of [FormatsTable.read_maps]; [row] is
    (book, format, name). *)
Definition FormatsTable_link_row (row : Z * option string * raw)
  : M pair_maps unit :=
  let '(book, format, nm) := row in
  match format with
  | None => mret tt
  | Some fmt =>
      ensure_col fmt ;;
      col_book_map_append book ;;
      ensure_book book ;;
      book_col_map_append book (fmt, nm)
  end.

Definition FormatsTable_read_maps (self : Table) (db : database)
  : M pair_maps unit :=
  for_each (execute_files db "SELECT book, format, name FROM data")
    FormatsTable_link_row.

Definition FormatsTable_read (self : Table) (db : database)
  : M pair_maps unit :=
  modify reset_maps ;;
  FormatsTable_read_id_maps self db ;;
  FormatsTable_read_maps self db.

(** One turn of the loop of [IdentifiersTable.read_maps]; [row] is
    (book, type, val). *)
Definition IdentifiersTable_link_row (row : Z * option string * raw)
  : M pair_maps unit :=
  let '(book, typ, val) := row in
  match typ with
  | None => mret tt
  | Some ty =>
      if is_none val then mret tt
      else
        ensure_col ty ;;
        col_book_map_append book ;;
        ensure_book book ;;
        book_col_map_append book (ty, val)
  end.

Definition IdentifiersTable_read_maps (self : Table) (db : database)
  : M pair_maps unit :=
  for_each (execute_files db "SELECT book, type, val FROM identifiers")
    IdentifiersTable_link_row.

Definition IdentifiersTable_read (self : Table) (db : database)
  : M pair_maps unit :=
  modify reset_maps ;;
  FormatsTable_read_id_maps self db ;;
  IdentifiersTable_read_maps self db.

(* ===================================================================== *)
(** ** The link pass with the append made on the list *)
(* ===================================================================== *)

(** The design notes of the specification name the form
    [self.col_book_map[key].append(book)] as the intended one for the inverse
    index.  The definitions of this section are the loops above with that
    one statement in place of [self.col_book_map.append(book)]; they are not
    what the source does and serve only to compare. *)

(** [self.col_book_map[key].append(book)] *)
Definition col_list_append {K V : Type} `{Countable K} (key : K) (book : Z)
  : M (maps K V) unit :=
  s ← get_self;
  l ← eval (dict_getitem (col_book_map s) key);
  modify (set_col_book_map <[key := l ++ [book]]>).

Definition ManyToOneTable_link_row_fixed (row : Z * Z) : M (maps Z Z) unit :=
  ensure_col row.2 ;;
  col_list_append row.2 row.1 ;;
  modify (set_book_col_map <[row.1 := row.2]>).

Definition ManyToManyTable_link_row_fixed (row : Z * Z)
  : M (maps Z (list Z)) unit :=
  ensure_col row.2 ;;
  col_list_append row.2 row.1 ;;
  ensure_book row.1 ;;
  book_col_map_append row.1 row.2.

(** The list under [key], empty when the key is absent, with [x] appended:
    what the two statements "create if absent, then append" leave under
    [key]. *)
Definition appended {K X : Type} `{Countable K} (m : gmap K (list X)) (key : K)
  (x : X) : gmap K (list X) :=
  <[key := default [] (m !! key) ++ [x]]> m.

(* ===================================================================== *)
(** ** A model of the backing store: tables and a fragment of SQL *)
(* ===================================================================== *)

(** Modelled from the spec: the backing store and its query execution
    ([db.conn.execute]) are not under src/.  The specification gives the
    store as [execute(queryText)], returning the ordered rows that the text
    asks for, and the size of a book as the maximum over its per-book
    collection of size values, aggregated by the query.  What a text asks for
    is the meaning SQL gives it; this section models that meaning for the
    fragment this module's fixed queries are written in:
    [SELECT e1, ..., en FROM t], where each [e] is a column, possibly
    qualified, or a scalar subquery [(SELECT MAX(c) FROM t' WHERE a=b)]
    (also [MIN], also without [WHERE]) that sees the row of the enclosing
    query.  The rows of a query are computed from its text: the text is cut
    into tokens, parsed, and evaluated over the tables.  Keywords and
    identifiers are matched as written. *)

(** Modelled from the spec: the store's tables are not under src/.  A row
    of the [data] table: one stored file of a book. *)
Record data_row : Type := mkDataRow {
  data_book : Z;
  data_format : option string;
  data_uncompressed_size : option Z;
  data_name : raw
}.

(** Modelled from the spec: the store's tables are not under src/.  The
    part of a library these queries look at: the ids of the [books] table,
    in the order the store returns them, and the [data] table. *)
Record library : Type := mkLibrary {
  lib_books : list Z;
  lib_data : list data_row
}.

(** The non-NULL [uncompressed_size]s of the [data] rows of [book]. *)
Definition stored_sizes (lib : library) (book : Z) : list Z :=
  omap (fun r => if Z.eqb (data_book r) book then data_uncompressed_size r
                 else None)
       (lib_data lib).

(** Modelled from the spec: the store's query execution is not under src/.
    SQL [MAX] over a column: NULL when there is no non-NULL value. *)
Definition sql_max (l : list Z) : raw :=
  match l with
  | [] => RNull
  | x :: l' => RInt (foldr Z.max x l')
  end.

(** Modelled from the spec: the store's query execution is not under src/.
    SQL [MIN] over a column: NULL when there is no non-NULL value. *)
Definition sql_min (l : list Z) : raw :=
  match l with
  | [] => RNull
  | x :: l' => RInt (foldr Z.min x l')
  end.

(** *** Tokens *)

Inductive token : Type :=
| TWord (w : string)
| TComma
| TLParen
| TRParen
| TEq.

Definition punctuation (c : ascii) : option token :=
  if Ascii.eqb c "," then Some TComma
  else if Ascii.eqb c "(" then Some TLParen
  else if Ascii.eqb c ")" then Some TRParen
  else if Ascii.eqb c "=" then Some TEq
  else None.

Definition flush_word (word : string) : list token :=
  match word with
  | EmptyString => []
  | _ => [TWord word]
  end.

(** Modelled from the spec: the store's query execution is not under src/.
    Cuts a query text into tokens; [word] holds the characters of the word
    being read. *)
Fixpoint tokenize_from (word : string) (s : string) : list token :=
  match s with
  | EmptyString => flush_word word
  | String c s' =>
      if is_space c then flush_word word ++ tokenize_from EmptyString s'
      else
        match punctuation c with
        | Some t => flush_word word ++ t :: tokenize_from EmptyString s'
        | None => tokenize_from (word +:+ String c EmptyString) s'
        end
  end.

Definition tokenize (s : string) : list token := tokenize_from EmptyString s.

(** *** Syntax *)

(** A column, with the table that qualifies it if any: [data.book] or
    [uncompressed_size]. *)
Definition column_ref : Type := (option string * string)%type.

Fixpoint split_qualifier (pre : string) (w : string) : column_ref :=
  match w with
  | EmptyString => (None, pre)
  | String c w' =>
      if Ascii.eqb c "." then (Some pre, w')
      else split_qualifier (pre +:+ String c EmptyString) w'
  end.

Definition column_of_word (w : string) : column_ref :=
  split_qualifier EmptyString w.

Inductive aggregate : Type := AggMax | AggMin.

Inductive sql_expr : Type :=
| ECol (c : column_ref)
| ESub (agg : aggregate) (arg : column_ref) (table : string)
       (cond : option (column_ref * column_ref)).

Record sql_query : Type := mkQuery {
  q_select : list sql_expr;
  q_from : string
}.

Definition is_keyword (w : string) : bool :=
  String.eqb w "SELECT" || String.eqb w "FROM" || String.eqb w "WHERE"
  || String.eqb w "MAX" || String.eqb w "MIN".

Definition parse_aggregate (w : string) : option aggregate :=
  if String.eqb w "MAX" then Some AggMax
  else if String.eqb w "MIN" then Some AggMin
  else None.

(** The end of a scalar subquery, after its table: [)] or [WHERE a=b)]. *)
Definition parse_sub_end (ts : list token)
  : option (option (column_ref * column_ref) * list token) :=
  match ts with
  | TRParen :: rest => Some (None, rest)
  | TWord k :: TWord a :: TEq :: TWord b :: TRParen :: rest =>
      if String.eqb k "WHERE" && negb (is_keyword a) && negb (is_keyword b)
      then Some (Some (column_of_word a, column_of_word b), rest)
      else None
  | _ => None
  end.

(** One expression of a SELECT list, and the tokens after it. *)
Definition parse_expr (ts : list token) : option (sql_expr * list token) :=
  match ts with
  | TWord w :: rest =>
      if is_keyword w then None else Some (ECol (column_of_word w), rest)
  | TLParen :: TWord k :: TWord a :: TLParen :: TWord arg :: TRParen
      :: TWord f :: TWord table :: rest =>
      if String.eqb k "SELECT" && String.eqb f "FROM"
         && negb (is_keyword arg) && negb (is_keyword table)
      then
        match parse_aggregate a, parse_sub_end rest with
        | Some agg, Some (cond, rest') =>
            Some (ESub agg (column_of_word arg) table cond, rest')
        | _, _ => None
        end
      else None
  | _ => None
  end.

(** A SELECT list: expressions separated by commas.  [fuel] bounds the
    number of expressions; the number of tokens is enough. *)
Fixpoint parse_select_list (fuel : nat) (ts : list token)
  : option (list sql_expr * list token) :=
  match fuel with
  | O => None
  | S fuel' =>
      match parse_expr ts with
      | None => None
      | Some (e, TComma :: rest) =>
          match parse_select_list fuel' rest with
          | Some (es, rest') => Some (e :: es, rest')
          | None => None
          end
      | Some (e, rest) => Some ([e], rest)
      end
  end.

(** Modelled from the spec: the store's query execution is not under src/.
    The syntax of [SELECT e1, ..., en FROM t], read from the text. *)
Definition parse_query (text : string) : option sql_query :=
  match tokenize text with
  | TWord k :: ts =>
      if String.eqb k "SELECT" then
        match parse_select_list (length ts) ts with
        | Some (es, [TWord f; TWord table]) =>
            if String.eqb f "FROM" && negb (is_keyword table)
            then Some (mkQuery es table)
            else None
        | _ => None
        end
      else None
  | _ => None
  end.

(** *** Evaluation *)

(** A row of a table: its columns by name. *)
Definition sql_row : Type := list (string * raw).

Fixpoint column_value (row : sql_row) (c : string) : option raw :=
  match row with
  | [] => None
  | (c', v) :: row' => if String.eqb c' c then Some v else column_value row' c
  end.

(** The rows in scope, innermost first, each with the name of its table. *)
Definition scopes : Type := list (string * sql_row).

(** The value of a column: a qualified column is looked up in the row of its
    table, an unqualified one in the innermost row that has it. *)
Fixpoint resolve (sc : scopes) (c : column_ref) : option raw :=
  match sc with
  | [] => None
  | (table, row) :: sc' =>
      let here :=
        match c.1 with
        | None => true
        | Some q => String.eqb q table
        end in
      if here then
        match column_value row c.2 with
        | Some v => Some v
        | None => resolve sc' c
        end
      else resolve sc' c
  end.

(** [a = b] is true only of two equal non-NULL values.  Integers are
    compared with integers and texts with texts; any other comparison is
    outside the fragment. *)
Definition sql_eq (a b : raw) : option bool :=
  match a, b with
  | RNull, _ | _, RNull => Some false
  | RInt x, RInt y => Some (Z.eqb x y)
  | RText x, RText y => Some (String.eqb x y)
  | _, _ => None
  end.

Definition condition_holds (sc : scopes)
  (cond : option (column_ref * column_ref)) : option bool :=
  match cond with
  | None => Some true
  | Some (a, b) =>
      match resolve sc a, resolve sc b with
      | Some va, Some vb => sql_eq va vb
      | _, _ => None
      end
  end.

(** Modelled from the spec: the store's query execution is not under src/.
    The non-NULL values of [arg] over the rows of [table] that satisfy
    [cond]; the fragment aggregates integers only. *)
Fixpoint aggregated_values (outer : scopes) (table : string)
  (cond : option (column_ref * column_ref)) (arg : column_ref)
  (rows : list sql_row) : option (list Z) :=
  match rows with
  | [] => Some []
  | row :: rows' =>
      match condition_holds ((table, row) :: outer) cond,
            aggregated_values outer table cond arg rows' with
      | Some true, Some zs =>
          match resolve ((table, row) :: outer) arg with
          | Some RNull => Some zs
          | Some (RInt z) => Some (z :: zs)
          | _ => None
          end
      | Some false, Some zs => Some zs
      | _, _ => None
      end
  end.

(** Modelled from the spec: the store's query execution is not under src/.
    The value of an aggregate over the selected values. *)
Definition sql_aggregate (agg : aggregate) (zs : list Z) : raw :=
  match agg with
  | AggMax => sql_max zs
  | AggMin => sql_min zs
  end.

(** The tables of a store, by name. *)
Definition tables_t : Type := string -> option (list sql_row).

(** Modelled from the spec: the store's query execution is not under src/.
    The value of an expression of the SELECT list for the row in [outer]: a
    column of that row, or the aggregate of a subquery that sees that
    row. *)
Definition eval_expr (tables : tables_t) (outer : scopes) (e : sql_expr)
  : option raw :=
  match e with
  | ECol c => resolve outer c
  | ESub agg arg table cond =>
      match tables table with
      | None => None
      | Some rows =>
          match aggregated_values outer table cond arg rows with
          | Some zs => Some (sql_aggregate agg zs)
          | None => None
          end
      end
  end.

(** Modelled from the spec: the store's query execution is not under src/.
    The rows of a query: one per row of its table, in the order of the
    table. *)
Definition eval_query (tables : tables_t) (q : sql_query)
  : option (list (list raw)) :=
  match tables (q_from q) with
  | None => None
  | Some rows =>
      mapM (fun row => mapM (eval_expr tables [(q_from q, row)]) (q_select q))
           rows
  end.

(** Modelled from the spec: the store's query execution is not under src/.
    [execute(queryText)]: the rows the text asks for, or nothing when the
    text is outside the fragment or names a table or column that does not
    exist. *)
Definition sql_execute (tables : tables_t) (text : string)
  : option (list (list raw)) :=
  match parse_query text with
  | None => None
  | Some q => eval_query tables q
  end.

(** *** The store of a library *)

Definition null_or {A : Type} (f : A -> raw) (x : option A) : raw :=
  match x with
  | Some a => f a
  | None => RNull
  end.

Definition books_columns (book : Z) : sql_row := [("id", RInt book)].

Definition data_columns (r : data_row) : sql_row :=
  [("book", RInt (data_book r));
   ("format", null_or RText (data_format r));
   ("uncompressed_size", null_or RInt (data_uncompressed_size r));
   ("name", data_name r)].

(** Modelled from the spec: the store's tables are not under src/.  The
    tables [books] and [data] of a library, with the columns this module's
    queries name. *)
Definition library_tables (lib : library) : tables_t :=
  fun table =>
    if String.eqb table "books" then Some (map books_columns (lib_books lib))
    else if String.eqb table "data" then Some (map data_columns (lib_data lib))
    else None.

(** A returned row as the loop of a [read] takes it apart. *)
Definition as_value_row (r : list raw) : option (Z * raw) :=
  match r with
  | [RInt z; v] => Some (z, v)
  | _ => None
  end.

Definition as_file_row (r : list raw) : option (Z * option string * raw) :=
  match r with
  | [RInt z; RNull; v] => Some (z, None, v)
  | [RInt z; RText f; v] => Some (z, Some f, v)
  | _ => None
  end.

(** Modelled from the spec: the store's connection is not under src/.  A
    connection to the store of [lib]: every query is answered by evaluating
    its text; a text that cannot be answered, or whose rows do not have the
    shape asked for, has no row. *)
Definition sqlite (lib : library) : database :=
  mkDatabase
    (fun q => default [] (sql_execute (library_tables lib) q
                          ≫= mapM as_value_row))
    (fun _ => [])
    (fun _ => [])
    (fun q => default [] (sql_execute (library_tables lib) q
                          ≫= mapM as_file_row)).

(** A connection that returns the given rows whatever the query text. *)
Definition rows_db (values : list (Z * raw)) (links : list (Z * Z))
  (authors : list (Z * raw * raw * raw))
  (files : list (Z * option string * raw)) : database :=
  mkDatabase (fun _ => values) (fun _ => links) (fun _ => authors)
             (fun _ => files).

(* ===================================================================== *)
(** ** Vocabulary of the statements *)
(* ===================================================================== *)

(** What the [try] block of [_c_convert_timestamp] evaluates to: the
    exception of [val.strip()] or of the fast parser, or the parser's
    answer. *)
Definition fast_attempt (h : handler) (val : raw) : exn + option date_fields :=
  match raw_strip val with
  | inl e => inl e
  | inr s => h _ (SpeedupParseDate s)
  end.

(** The calls to the flexible parser among the calls made. *)
Definition flexible_calls (tr : list logged) : list (raw * bool) :=
  omap (fun l : logged =>
          match projT2 l with
          | ParseDate val as_utc => Some (val, as_utc)
          | _ => None
          end) tr.

(** The call returned, it did not raise. *)
Definition returns {X : Type} (r : exn + X) : Prop := exists v, r = inr v.

(** The id map after rows (id, name, sort, link) each wrote its name, as the
    store returned it, under its id. *)
Definition raw_names (rows : list (Z * raw * raw * raw)) (m : gmap Z value)
  : gmap Z value :=
  foldl (fun m row => <[row.1.1.1 := of_raw row.1.1.2]> m) m rows.

(** The forward map after rows (book, value) each wrote its value, as the
    store returned it, under its book. *)
Definition raw_values (rows : list (Z * raw)) (m : gmap Z value)
  : gmap Z value :=
  foldl (fun m row => <[row.1 := of_raw row.2]> m) m rows.

(** [book] is in the list the inverse index holds for [item]. *)
Definition in_inverse {K V : Type} `{Countable K} (s : maps K V) (item : K)
  (book : Z) : Prop :=
  exists l, col_book_map s !! item = Some l /\ book ∈ l.

(** [x] is in the list the forward index holds for [book]. *)
Definition in_forward {K X : Type} `{Countable K} (s : maps K (list X))
  (book : Z) (x : X) : Prop :=
  exists l, book_col_map s !! book = Some l /\ x ∈ l.

(** An environment in which every call out of the module raises. *)
Definition failing_env : handler := fun X c => inl (OtherError "unavailable").

(** An environment whose fast parser knows no format, whose flexible parser
    answers the epoch, and whose sort transform returns the name. *)
Definition plain_env : handler :=
  fun X c =>
    match c in ext_call T return exn + T with
    | SpeedupParseDate _ => inr None
    | ParseDate _ _ => inr (VDateTime (mkDatetime 1970 1 1 0 0 0 0))
    | NewDatetime (y, mo, d, hh, mi, ss, tz) =>
        inr (mkDatetime y mo d hh mi ss tz)
    | AsLocalTimezone d => inr d
    | AuthorToAuthorSort nm => inr (of_raw nm)
    end.

(** Field metadata with the given datatype, for a column of the [books]
    table. *)
Definition column_metadata (datatype : string) : metadata_t :=
  {[ "datatype" := Some datatype; "table" := Some "books";
     "column" := Some "flag" ]}.

(** Field metadata of an item table with its link column. *)
Definition link_metadata (table link_column : string) : metadata_t :=
  {[ "datatype" := Some "text"; "table" := Some table;
     "name" := Some "name"; "link_column" := Some link_column ]}.

(** The [tags] table, many-to-many. *)
Definition tags_table : Table :=
  mkTable "tags" (link_metadata "tags" "tag") adapt_identity "books_tags_link".

(** The [series] table, many-to-one. *)
Definition series_table : Table :=
  mkTable "series" (link_metadata "series" "series") adapt_identity
          "books_series_link".

(** The [authors] table, as [Table.__init__] builds it. *)
Definition authors_table : Table :=
  mkTable "authors" (link_metadata "authors" "author") adapt_authors_legacy
          "books_authors_link".

(** A yes/no column ["read"], as [Table.__init__] builds it. *)
Definition read_flag_table : Table :=
  mkTable "read" (column_metadata "bool") adapt_bool "books_books_link".

(** The [formats] table. *)
Definition formats_table : Table :=
  mkTable "formats" (column_metadata "text") adapt_identity "books_books_link".

(** The [size] table. *)
Definition size_table : Table :=
  mkTable "size" (column_metadata "float") adapt_identity "books_books_link".

(* ===================================================================== *)
(** ** Vocabulary of the further statements *)
(* ===================================================================== *)

(** The texts handed to the fast parser among the calls made. *)
Definition fast_calls (tr : list logged) : list string :=
  omap (fun l : logged =>
          match projT2 l with
          | SpeedupParseDate s => Some s
          | _ => None
          end) tr.

(** What [self.adapt(x)] evaluates to in the environment [h]. *)
Definition adapted (h : handler) (self : Table) (x : raw) : exn + value :=
  result h (adapt self x).

(** The forward map after rows (book, value) each wrote its adapted value
    under its book; a row whose adaptation raises writes nothing. *)
Definition adapted_values (h : handler) (self : Table) (rows : list (Z * raw))
  (m : gmap Z value) : gmap Z value :=
  foldl (fun m row =>
           match adapted h self row.2 with
           | inr v => <[row.1 := v]> m
           | inl _ => m
           end) m rows.

(** The id map after rows (id, name): a row with a truthy name writes the
    adapted name under its id, any other row writes nothing. *)
Definition named_values (h : handler) (self : Table) (rows : list (Z * raw))
  (m : gmap Z value) : gmap Z value :=
  adapted_values h self (filter (fun row => truthy row.2 = true) rows) m.

(** The sort key [AuthorsTable] stores for a row (id, name, sort, link):
    [row[2] if row[2] else author_to_author_sort(row[1])]. *)
Definition sort_key (h : handler) (row : Z * raw * raw * raw) : exn + value :=
  if truthy row.1.2 then inr (of_raw row.1.2)
  else h value (AuthorToAuthorSort row.1.1.2).

(** The rows (book, type, val) that [IdentifiersTable.read_maps] passes
    over: those with a NULL type or a NULL val. *)
Definition identifier_skipped (row : Z * option string * raw) : bool :=
  match row.1.2 with
  | None => true
  | Some _ => is_none row.2
  end.

(** The rows (book, format, name) that [FormatsTable.read_maps] passes
    over: those with a NULL format. *)
Definition format_skipped (row : Z * option string * raw) : bool :=
  match row.1.2 with
  | None => true
  | Some _ => false
  end.

(** The body of the loop of [ManyToOneTable.read_id_maps]. *)
Abbreviation id_body h self :=
  (fun row : Z * raw =>
     when (truthy row.2)
          (v ← perform h (adapt self row.2);
           modify (set_id_map <[row.1 := v]>))).

(** Two states of a table agree on the four maps that [read] resets. *)
Definition same_maps {K V : Type} `{Countable K} (s1 s2 : maps K V) : Prop :=
  id_map s1 = id_map s2 /\ extra_map s1 = extra_map s2
  /\ col_book_map s1 = col_book_map s2 /\ book_col_map s1 = book_col_map s2.

(** An environment whose fast parser reads every text as
    2011-01-02 03:04:05 +01:00, whose [datetime] takes every tuple and whose
    local zone is that of the value; the flexible parser and the sort
    transform raise [ValueError]. *)
Definition fast_env : handler :=
  fun X c =>
    match c in ext_call T return exn + T with
    | SpeedupParseDate _ => inr (Some (2011, 1, 2, 3, 4, 5, 3600))
    | ParseDate _ _ => inl ValueError
    | NewDatetime (y, mo, d, hh, mi, ss, tz) =>
        inr (mkDatetime y mo d hh mi ss tz)
    | AsLocalTimezone d => inr d
    | AuthorToAuthorSort _ => inl ValueError
    end.

(** A date column ["pubdate"] of the [books] table, as [Table.__init__]
    builds it. *)
Definition pubdate_table : Table :=
  mkTable "pubdate" (column_metadata "datetime") _c_convert_timestamp
          "books_books_link".

(** A table object whose metadata has no entry at all. *)
Definition bare_table : Table := mkTable "size" ∅ adapt_identity "data".

(* ===================================================================== *)
(** ** Properties of the value adapters *)
(* ===================================================================== *)

Section Table_init_facts.

Context (nm : string) (md : metadata_t) (lt : option string) (t : Table).
Hypothesis Hinit : Table_init nm md lt = inr t.

(** A table that was constructed has a declared datatype. *)
Lemma Table_init_datatype : exists dt, md !! "datatype" = Some dt.
Proof using Hinit.
  unfold Table_init, dict_getitem in Hinit.
  destruct (md !! "datatype") as [dt|]; [eauto | discriminate].
Qed.

(** The adapter of a constructed table, by name and datatype. *)
Lemma Table_init_adapt (dt : option string) :
  md !! "datatype" = Some dt ->
  adapt t = if String.eqb nm "authors" then adapt_authors_legacy
            else adapter_for_datatype dt.
Proof using Hinit.
  intros Hdt. unfold Table_init, dict_getitem in Hinit. rewrite Hdt in Hinit.
  destruct lt as [[|c l]|]; destruct (md !! "table");
    try discriminate; by inversion Hinit.
Qed.

End Table_init_facts.

(** The tables named above are what the constructor builds. *)
Example Table_init_tags :
  Table_init "tags" (link_metadata "tags" "tag") None = inr tags_table.
Proof. reflexivity. Qed.

Example Table_init_series :
  Table_init "series" (link_metadata "series" "series") None
  = inr series_table.
Proof. reflexivity. Qed.

Example Table_init_size :
  Table_init "size" (column_metadata "float") None = inr size_table.
Proof. reflexivity. Qed.

Example Table_init_formats :
  Table_init "formats" (column_metadata "text") None = inr formats_table.
Proof. reflexivity. Qed.

(** Without a datatype in the metadata the constructor raises. *)
Example Table_init_no_datatype : Table_init "tags" ∅ None = inl KeyError.
Proof. reflexivity. Qed.

(** Replacing the one-character string [a] by the one-character string [b]
    rewrites each character on its own. *)
Lemma str_replace_char (a b : ascii) (s : string) :
  str_replace s (String a EmptyString) (String b EmptyString) = map_char a b s.
Proof.
  unfold str_replace. induction s as [|c s IH]; [reflexivity|].
  cbn [replace_from String.prefix map_char String.length].
  destruct (ascii_dec c a) as [->|Hne].
  - destruct (ascii_dec a a) as [_|[]]; [|reflexivity].
    rewrite Ascii.eqb_refl.
    replace (String.prefix "" s) with true by (by destruct s).
    cbn. by rewrite IH.
  - destruct (ascii_dec a c) as [->|_]; [done|].
    apply Ascii.eqb_neq in Hne. rewrite Hne. by rewrite IH.
Qed.

Lemma map_char_length (a b : ascii) (s : string) :
  String.length (map_char a b s) = String.length s.
Proof. induction s as [|c s IH]; cbn; [done | by rewrite IH]. Qed.

(** After the rewriting no [a] is left, provided [b] is another character. *)
Lemma map_char_get (a b : ascii) (s : string) (i : nat) :
  String.get i (map_char a b s) =
  (fun c => if Ascii.eqb c a then b else c) <$> String.get i s.
Proof.
  revert i. induction s as [|c s IH]; intros i; [done|].
  destruct i as [|i]; cbn; [done | apply IH].
Qed.

(** C3, as the code has it: the adapter of a table of datatype ['bool'] whose
    name is not ['authors'] is the builtin [bool]; it maps every raw value,
    NULL included, to its truth value, so that NULL is adapted to [False]
    and never to [None].  It makes no call out of the module. *)
Theorem bool_adapter_is_truthiness (nm : string) (md : metadata_t)
  (lt : option string) (t : Table) (h : handler) (x : raw) :
  Table_init nm md lt = inr t ->
  md !! "datatype" = Some (Some "bool") ->
  nm <> "authors" ->
  run h (adapt t x) = ([], inr (VBool (truthy x)))
  /\ run h (adapt t RNull) = ([], inr (VBool false)).
Proof.
  intros Hinit Hdt Hnm.
  rewrite (Table_init_adapt _ _ _ _ Hinit _ Hdt).
  apply String.eqb_neq in Hnm. rewrite Hnm. done.
Qed.

Lemma bool_adapter_is_truthiness_witness :
  Table_init "read" (column_metadata "bool") None = inr read_flag_table
  /\ run failing_env (adapt read_flag_table (RInt 7)) = ([], inr (VBool true))
  /\ run failing_env (adapt read_flag_table RNull) = ([], inr (VBool false)).
Proof.
  split; [reflexivity|].
  apply (bool_adapter_is_truthiness "read" (column_metadata "bool") None).
  - reflexivity.
  - reflexivity.
  - discriminate.
Defined.

(** C3, as stated, fails: for the table ["read"] of datatype ['bool'] the
    adapter maps NULL to [False], not to [None]. *)
Lemma bool_adapter_null_not_none :
  ~ (forall (nm : string) (md : metadata_t) (lt : option string) (t : Table)
            (h : handler),
        Table_init nm md lt = inr t ->
        md !! "datatype" = Some (Some "bool") ->
        nm <> "authors" ->
        (forall x, is_none x = false ->
                   result h (adapt t x) = inr (VBool (truthy x)))
        /\ result h (adapt t RNull) = inr VNone).
Proof.
  intros Hclaim.
  destruct (Hclaim "read" (column_metadata "bool") None read_flag_table
              failing_env) as [_ Hnull].
  - reflexivity.
  - reflexivity.
  - discriminate.
  - discriminate Hnull.
Qed.

(** The calls and the result of the fall-back path. *)
Lemma convert_timestamp_fallback (h : handler) (val : raw) :
  run h (convert_timestamp_finish val None)
  = ([log (ParseDate val false)], h value (ParseDate val false)).
Proof. reflexivity. Qed.

(** A falsy value makes no call at all. *)
Lemma convert_timestamp_falsy (h : handler) (val : raw) :
  truthy val = false -> run h (_c_convert_timestamp val) = ([], inr VNone).
Proof. intros Hf. unfold _c_convert_timestamp. by rewrite Hf. Qed.

(** What a truthy value does, in terms of the outcome of the [try] block. *)
Lemma convert_timestamp_truthy (h : handler) (val : raw) :
  truthy val = true ->
  result h (_c_convert_timestamp val)
  = result h (convert_timestamp_finish val (swallow (fast_attempt h val)))
  /\ flexible_calls (calls h (_c_convert_timestamp val))
     = flexible_calls
         (calls h
            (convert_timestamp_finish val (swallow (fast_attempt h val)))).
Proof.
  intros Ht. unfold _c_convert_timestamp, fast_attempt, result, calls.
  rewrite Ht. cbn [negb].
  destruct (raw_strip val) as [e|s]; [done|].
  cbn [run].
  destruct (run h (convert_timestamp_finish val
                     (swallow (h _ (SpeedupParseDate s)))))
    as [tr a] eqn:Hrun.
  done.
Qed.

(** C5: [_c_convert_timestamp] maps a falsy value (NULL, empty text, zero)
    to [None] and calls no parser.  For any other value, when the attempt
    with the fast parser raises (whatever the exception) or returns [None],
    the flexible parser is called exactly once, with the value as it was
    received and [as_utc=False], and what that call returns or raises is the
    outcome of the adapter. *)
Theorem convert_timestamp_error_policy (h : handler) (val : raw) :
  (truthy val = false ->
     run h (_c_convert_timestamp val) = ([], inr VNone))
  /\ (truthy val = true ->
      (forall e, fast_attempt h val = inl e ->
         result h (_c_convert_timestamp val) = h value (ParseDate val false)
         /\ flexible_calls (calls h (_c_convert_timestamp val))
            = [(val, false)])
      /\ (fast_attempt h val = inr None ->
         result h (_c_convert_timestamp val) = h value (ParseDate val false)
         /\ flexible_calls (calls h (_c_convert_timestamp val))
            = [(val, false)])).
Proof.
  split; [apply convert_timestamp_falsy|].
  intros Ht. destruct (convert_timestamp_truthy h val Ht) as [Hres Hcalls].
  split; [intros e Hfast | intros Hfast];
    rewrite Hres, Hcalls, Hfast; cbn [swallow];
    unfold result, calls; by rewrite convert_timestamp_fallback.
Qed.

Lemma convert_timestamp_error_policy_witness :
  run failing_env (_c_convert_timestamp (RText "")) = ([], inr VNone)
  /\ (result failing_env (_c_convert_timestamp (RText " 2011-01-02 "))
      = inl (OtherError "unavailable")
      /\ flexible_calls (calls failing_env
                           (_c_convert_timestamp (RText " 2011-01-02 ")))
         = [(RText " 2011-01-02 ", false)])
  /\ (result plain_env (_c_convert_timestamp (RInt 20110102))
      = inr (VDateTime (mkDatetime 1970 1 1 0 0 0 0))
      /\ flexible_calls (calls plain_env (_c_convert_timestamp (RInt 20110102)))
         = [(RInt 20110102, false)])
  /\ (result plain_env (_c_convert_timestamp (RText "someday"))
      = inr (VDateTime (mkDatetime 1970 1 1 0 0 0 0))
      /\ flexible_calls
           (calls plain_env (_c_convert_timestamp (RText "someday")))
         = [(RText "someday", false)]).
Proof.
  split; [| split; [| split]].
  - apply (convert_timestamp_error_policy failing_env (RText "")). reflexivity.
  - apply (convert_timestamp_error_policy failing_env (RText " 2011-01-02 "))
      with (e := OtherError "unavailable"); reflexivity.
  - apply (convert_timestamp_error_policy plain_env (RInt 20110102))
      with (e := AttributeError); reflexivity.
  - apply (convert_timestamp_error_policy plain_env (RText "someday"));
      reflexivity.
Defined.

(** C6: the adapter of the table named ['authors'] maps a non-empty text to
    the text in which every ['|'] has become [','] and every other character
    is kept, and maps NULL and the empty text to [None]; it adapts
    ["Smith|Jones"] to ["Smith,Jones"].  It makes no call out of the module. *)
Theorem authors_adapter_pipe_to_comma (md : metadata_t) (lt : option string)
  (t : Table) (h : handler) :
  Table_init "authors" md lt = inr t ->
  (forall s, s <> "" ->
     run h (adapt t (RText s)) = ([], inr (VText (map_char "|" "," s))))
  /\ run h (adapt t RNull) = ([], inr VNone)
  /\ run h (adapt t (RText "")) = ([], inr VNone)
  /\ run h (adapt t (RText "Smith|Jones")) = ([], inr (VText "Smith,Jones")).
Proof.
  intros Hinit.
  destruct (Table_init_datatype _ _ _ _ Hinit) as [dt Hdt].
  rewrite (Table_init_adapt _ _ _ _ Hinit _ Hdt), String.eqb_refl.
  repeat split; try reflexivity.
  intros s Hs. unfold adapt_authors_legacy.
  destruct s as [|c s]; [done|]. cbn [truthy raw_replace run].
  by rewrite (str_replace_char "|" ",").
Qed.

Lemma authors_adapter_pipe_to_comma_witness :
  Table_init "authors" (link_metadata "authors" "author") None
  = inr authors_table
  /\ (forall s, s <> "" ->
        run failing_env (adapt authors_table (RText s))
        = ([], inr (VText (map_char "|" "," s))))
  /\ run failing_env (adapt authors_table RNull) = ([], inr VNone)
  /\ run failing_env (adapt authors_table (RText "")) = ([], inr VNone)
  /\ run failing_env (adapt authors_table (RText "Smith|Jones"))
     = ([], inr (VText "Smith,Jones")).
Proof.
  split; [reflexivity|].
  apply (authors_adapter_pipe_to_comma (link_metadata "authors" "author") None).
  reflexivity.
Defined.

(** C8: whatever datatype the metadata declares, ['datetime'] and ['bool']
    included, a table constructed with the name ['authors'] has the legacy
    adapter: the check of the name comes last and overwrites the choice made
    from the datatype.  The construction succeeds as soon as the metadata
    has a datatype and the link table is given or can be derived. *)
Theorem authors_name_overrides_datatype (md : metadata_t) (lt : option string)
  (dt : option string) :
  md !! "datatype" = Some dt ->
  (lt <> None /\ lt <> Some "" \/ is_Some (md !! "table")) ->
  exists t, Table_init "authors" md lt = inr t
            /\ adapt t = adapt_authors_legacy.
Proof.
  intros Hdt Hlink. unfold Table_init, dict_getitem.
  rewrite Hdt, String.eqb_refl.
  destruct lt as [[|c l]|].
  - destruct Hlink as [[_ Hne]|[tb Htb]]; [done|]. rewrite Htb. eauto.
  - eauto.
  - destruct Hlink as [[Hne _]|[tb Htb]]; [done|]. rewrite Htb. eauto.
Qed.

Lemma authors_name_overrides_datatype_witness :
  (exists t, Table_init "authors" (column_metadata "datetime") None = inr t
             /\ adapt t = adapt_authors_legacy)
  /\ (exists t, Table_init "authors" (column_metadata "bool") None = inr t
                /\ adapt t = adapt_authors_legacy).
Proof.
  split.
  - apply (authors_name_overrides_datatype (column_metadata "datetime") None
             (Some "datetime")).
    + reflexivity.
    + right. by eexists.
  - apply (authors_name_overrides_datatype (column_metadata "bool") None
             (Some "bool")).
    + reflexivity.
    + right. by eexists.
Defined.

(* ===================================================================== *)
(** ** The link pass as written *)
(* ===================================================================== *)

(** The statement [self.col_book_map.append(book)] raises in every state and
    changes nothing. *)
Lemma col_book_map_append_raises {K V : Type} `{Countable K} (book : Z)
  (s : maps K V) :
  col_book_map_append book s = (inl AttributeError, s).
Proof. reflexivity. Qed.

(** [ensure_col] returns, touches the inverse index only, and leaves an
    empty list under a key that was absent. *)
Lemma ensure_col_spec {K V : Type} `{Countable K} (key : K) (s : maps K V) :
  ensure_col key s
  = (inr tt,
     if not_in key (col_book_map s) then set_col_book_map <[key := []]> s
     else s).
Proof.
  unfold ensure_col, get_self, when, modify, mbind, M_bind.
  by destruct (not_in key (col_book_map s)).
Qed.

(** A loop whose first turn raises stops there. *)
Lemma for_each_raises {S R : Type} (body : R -> M S unit) (row : R)
  (rest : list R) (s s' : S) (e : exn) :
  body row s = (inl e, s') -> for_each (row :: rest) body s = (inl e, s').
Proof. intros Hb. cbn [for_each]. unfold mbind, M_bind. by rewrite Hb. Qed.

(** A loop whose first turn returns goes on with the rest. *)
Lemma for_each_cons {S R : Type} (body : R -> M S unit) (row : R)
  (rest : list R) (s s' : S) :
  body row s = (inr tt, s') ->
  for_each (row :: rest) body s = for_each rest body s'.
Proof. intros Hb. cbn [for_each]. unfold mbind, M_bind. by rewrite Hb. Qed.

Lemma ManyToOneTable_link_row_raises (row : Z * Z) (s : maps Z Z) :
  ManyToOneTable_link_row row s = (inl AttributeError, (ensure_col row.2 s).2).
Proof.
  unfold ManyToOneTable_link_row, mbind, M_bind.
  rewrite ensure_col_spec. cbn [snd]. by rewrite col_book_map_append_raises.
Qed.

Lemma ManyToManyTable_link_row_raises (row : Z * Z) (s : maps Z (list Z)) :
  ManyToManyTable_link_row row s = (inl AttributeError, (ensure_col row.2 s).2).
Proof.
  unfold ManyToManyTable_link_row, mbind, M_bind.
  rewrite ensure_col_spec. cbn [snd]. by rewrite col_book_map_append_raises.
Qed.

(** A row of [FormatsTable] whose format is NULL changes nothing. *)
Lemma FormatsTable_null_row_skipped (book : Z) (nm : raw) (s : pair_maps) :
  FormatsTable_link_row (book, None, nm) s = (inr tt, s).
Proof. reflexivity. Qed.

Lemma FormatsTable_link_row_raises (book : Z) (fmt : string) (nm : raw)
  (s : pair_maps) :
  FormatsTable_link_row (book, Some fmt, nm) s
  = (inl AttributeError, (ensure_col fmt s).2).
Proof.
  unfold FormatsTable_link_row, mbind, M_bind.
  rewrite ensure_col_spec. cbn [snd]. by rewrite col_book_map_append_raises.
Qed.

(** Rows with a NULL format at the head of the result are passed over. *)
Lemma FormatsTable_skips_null_prefix (skipped : list (Z * raw))
  (rest : list (Z * option string * raw)) (s : pair_maps) :
  for_each (map (fun r => (r.1, None, r.2)) skipped ++ rest)
           FormatsTable_link_row s
  = for_each rest FormatsTable_link_row s.
Proof.
  induction skipped as [|[b n] skipped IH]; [done|].
  cbn [map app]. by rewrite (for_each_cons _ _ _ s s).
Qed.

(** C1, what the code does: as soon as the link table has a row, the link
    pass of [ManyToManyTable] raises [AttributeError] on the first row,
    [(book, item)]: it has put an empty list under [item] in the inverse
    index and has written nothing to the forward index.  No table with a
    link is ever loaded, and no book enters either index. *)
Theorem many_to_many_link_pass_raises (self : Table) (db : database)
  (q : string) (book item : Z) (rest : list (Z * Z)) :
  ManyToOneTable_link_query self = inr q ->
  execute_links db q = (book, item) :: rest ->
  ManyToManyTable_read_maps self db empty_maps
  = (inl AttributeError, mkMaps ∅ ∅ {[item := []]} ∅ ∅).
Proof.
  intros Hq Hrows. unfold ManyToManyTable_read_maps, mbind, M_bind, eval.
  rewrite Hq, Hrows.
  by rewrite (for_each_raises _ _ _ _ _ _ (ManyToManyTable_link_row_raises _ _)).
Qed.

Lemma many_to_many_link_pass_raises_witness :
  ManyToManyTable_read_maps tags_table (rows_db [] [(1, 10)] [] []) empty_maps
  = (inl AttributeError, mkMaps ∅ ∅ {[10 := []]} ∅ ∅).
Proof.
  apply (many_to_many_link_pass_raises tags_table (rows_db [] [(1, 10)] [] [])
           "SELECT book, tag FROM books_tags_link" 1 10 []); reflexivity.
Defined.

(** C2, what the code does: the link pass of [ManyToOneTable] raises
    [AttributeError] on the first row [(book, item)], before the assignment
    to the forward index: no lookup [get(book)] ever has an answer, and the
    list under [item] in the inverse index is empty. *)
Theorem many_to_one_link_pass_raises (self : Table) (db : database)
  (q : string) (book item : Z) (rest : list (Z * Z)) :
  ManyToOneTable_link_query self = inr q ->
  execute_links db q = (book, item) :: rest ->
  ManyToOneTable_read_maps self db empty_maps
  = (inl AttributeError, mkMaps ∅ ∅ {[item := []]} ∅ ∅).
Proof.
  intros Hq Hrows. unfold ManyToOneTable_read_maps, mbind, M_bind, eval.
  rewrite Hq, Hrows.
  by rewrite (for_each_raises _ _ _ _ _ _ (ManyToOneTable_link_row_raises _ _)).
Qed.

Lemma many_to_one_link_pass_raises_witness :
  ManyToOneTable_read_maps series_table (rows_db [] [(1, 10)] [] []) empty_maps
  = (inl AttributeError, mkMaps ∅ ∅ {[10 := []]} ∅ ∅).
Proof.
  apply (many_to_one_link_pass_raises series_table
           (rows_db [] [(1, 10)] [] [])
           "SELECT book, series FROM books_series_link" 1 10 []); reflexivity.
Defined.

(** C10, what the code does: with two link rows for book 1, to items 10 and
    then 20, the whole [read] of a [ManyToOneTable] raises on the first of
    them; the forward index has no entry for book 1, where the last row
    would have given 20. *)
Theorem many_to_one_last_write_never_happens :
  let db := rows_db [] [(1, 10); (1, 20)] [] [] in
  let out := ManyToOneTable_read failing_env series_table db empty_maps in
  out.1 = inl AttributeError
  /\ book_col_map out.2 !! 1 = None
  /\ col_book_map out.2 = {[10 := []]}.
Proof. cbv zeta. split; [|split]; reflexivity. Qed.

(** C4, what the code does: rows with a NULL format are passed over, and
    the first row with a format makes the link pass of [FormatsTable] raise
    [AttributeError]: at that point the inverse index has an empty list
    under the format and the forward index is empty. *)
Theorem formats_link_pass_raises (self : Table) (db : database)
  (skipped : list (Z * raw)) (book : Z) (fmt : string) (nm : raw)
  (rest : list (Z * option string * raw)) :
  execute_files db "SELECT book, format, name FROM data"
  = map (fun r => (r.1, None, r.2)) skipped ++ (book, Some fmt, nm) :: rest ->
  FormatsTable_read self db empty_maps
  = (inl AttributeError, mkMaps ∅ ∅ {[fmt := []]} ∅ ∅).
Proof.
  intros Hrows.
  unfold FormatsTable_read, FormatsTable_read_id_maps, FormatsTable_read_maps.
  unfold mbind, M_bind, modify, mret, M_ret. rewrite Hrows.
  rewrite FormatsTable_skips_null_prefix.
  by rewrite (for_each_raises _ _ _ _ _ _ (FormatsTable_link_row_raises _ _ _ _)).
Qed.

Lemma formats_link_pass_raises_witness :
  FormatsTable_read formats_table
    (rows_db [] [] []
       [(1, Some "EPUB", RText "book.epub"); (1, Some "PDF", RText "book.pdf")])
    empty_maps
  = (inl AttributeError, mkMaps ∅ ∅ {["EPUB" := []]} ∅ ∅).
Proof.
  apply (formats_link_pass_raises formats_table _ [] 1 "EPUB"
           (RText "book.epub") [(1, Some "PDF", RText "book.pdf")]).
  reflexivity.
Defined.

(* ===================================================================== *)
(** ** The id-map pass of AuthorsTable *)
(* ===================================================================== *)

(** One turn of the loop writes the raw name under the id, whether or not
    the sort transform raises afterwards; it returns when the row has a sort
    value or the transform returns. *)
Lemma AuthorsTable_id_row_spec {K V : Type} `{Countable K} (h : handler)
  (row : Z * raw * raw * raw) (s : maps K V) :
  id_map (AuthorsTable_id_row h row s).2
  = <[row.1.1.1 := of_raw row.1.1.2]> (id_map s)
  /\ (returns (h value (AuthorToAuthorSort row.1.1.2)) ->
      (AuthorsTable_id_row h row s).1 = inr tt).
Proof.
  destruct row as [[[id nm] sort] link].
  unfold AuthorsTable_id_row, mbind, M_bind, modify, perform, result.
  destruct (truthy sort); [done|]. cbn.
  destruct (h value (AuthorToAuthorSort nm)) as [e|v]; [|done].
  split; [done|]. by intros [v [=]].
Qed.

(** The loop stops at the first row whose turn raises; the id map then holds
    the raw names of the rows up to that one, and of all rows when the loop
    returns. *)
Lemma AuthorsTable_loop_spec {K V : Type} `{Countable K} (h : handler)
  (rows : list (Z * raw * raw * raw)) (s : maps K V) :
  (exists k : nat,
     id_map (for_each rows (AuthorsTable_id_row h) s).2
     = raw_names (take k rows) (id_map s)
     /\ ((for_each rows (AuthorsTable_id_row h) s).1 = inr tt ->
         take k rows = rows))
  /\ ((forall nm, returns (h value (AuthorToAuthorSort nm))) ->
      (for_each rows (AuthorsTable_id_row h) s).1 = inr tt).
Proof.
  revert s. induction rows as [|row rows IH]; intros s.
  - split; [by exists 0%nat | done].
  - destruct (AuthorsTable_id_row_spec h row s) as [Hid Hret].
    destruct (AuthorsTable_id_row h row s) as [[e|[]] s1] eqn:Hrow.
    + rewrite (for_each_raises _ _ _ _ _ _ Hrow). split.
      * exists 1%nat. split; [|done]. cbn [take]. by rewrite take_0.
      * intros Hsort. by specialize (Hret (Hsort _)).
    + rewrite (for_each_cons _ _ _ _ _ Hrow).
      destruct (IH s1) as [(k & Hk & Hall) Htot]. split; [|done].
      exists (S k). cbn [take]. split.
      * rewrite Hk. cbn [snd] in Hid. rewrite Hid. reflexivity.
      * intros Hok. by rewrite (Hall Hok).
Qed.

(** The entry of an id after the pass is the raw name of its last row. *)
Lemma raw_names_last (pre post : list (Z * raw * raw * raw)) (id : Z)
  (nm sort link : raw) (m : gmap Z value) :
  id ∉ map (fun row => row.1.1.1) post ->
  raw_names (pre ++ (id, nm, sort, link) :: post) m !! id = Some (of_raw nm).
Proof.
  intros Hpost. unfold raw_names. rewrite foldl_app. cbn [foldl fst snd].
  generalize (foldl (fun m row => <[row.1.1.1 := of_raw row.1.1.2]> m) m pre).
  intros m0.
  assert (Hm : <[id := of_raw nm]> m0 !! id = Some (of_raw nm))
    by apply lookup_insert_eq.
  revert Hm. generalize (<[id := of_raw nm]> m0). clear m0.
  induction post as [|row post IH]; intros m1 Hm; [done|].
  cbn [foldl]. apply IH.
  - intros Hin. apply Hpost. cbn. by right.
  - rewrite lookup_insert_ne; [done|].
    intros Heq. apply Hpost. cbn. rewrite Heq. by left.
Qed.

(** C9: [AuthorsTable.read_id_maps] writes under each id the name as the
    store returned it.  The pass is the same whatever adapter the table
    carries, so the legacy adapter has no part in it.  However the pass ends,
    the id map holds the raw names of the rows done so far, of all rows when
    the pass returns; it returns whenever the sort transform does not raise,
    and then the entry of an id is the raw name of the last row with that
    id.  A name with a ['|'] is stored with its ['|']. *)
Theorem authors_id_map_unadapted (h : handler) (self : Table) (db : database)
  (s : maps Z (list Z)) :
  let rows := execute_authors db "SELECT id, name, sort, link FROM authors" in
  let out := AuthorsTable_read_id_maps h self db s in
  (forall f : adapter,
     AuthorsTable_read_id_maps h
       (mkTable (name self) (metadata self) f (link_table self)) db s
     = out)
  /\ (exists k : nat,
        id_map out.2 = raw_names (take k rows) (id_map s)
        /\ (out.1 = inr tt -> take k rows = rows))
  /\ ((forall nm, returns (h value (AuthorToAuthorSort nm))) ->
      out.1 = inr tt
      /\ id_map out.2 = raw_names rows (id_map s)
      /\ (forall pre post id nm sort link,
            rows = pre ++ (id, nm, sort, link) :: post ->
            id ∉ map (fun row => row.1.1.1) post ->
            id_map out.2 !! id = Some (of_raw nm))).
Proof.
  intros rows out. split; [reflexivity|].
  destruct (AuthorsTable_loop_spec h rows (set_alink_map (fun _ => ∅) s))
    as [(k & Hk & Hall) Htot].
  assert (Hout : out = for_each rows (AuthorsTable_id_row h)
                         (set_alink_map (fun _ => ∅) s)) by reflexivity.
  rewrite Hout. split; [by exists k|].
  intros Hsort. specialize (Htot Hsort). specialize (Hall Htot).
  rewrite Hall in Hk. split; [done|]. split; [done|].
  intros pre post id nm sort link Hrows Hpost.
  rewrite Hk, Hrows. by apply raw_names_last.
Qed.

Lemma authors_id_map_unadapted_witness :
  (AuthorsTable_read_id_maps plain_env authors_table
     (rows_db [] [] [(7, RText "Smith|Jones", RNull, RText "")] [])
     (empty_maps (K := Z) (V := list Z))).1
  = inr tt
  /\ id_map
       (AuthorsTable_read_id_maps plain_env authors_table
          (rows_db [] [] [(7, RText "Smith|Jones", RNull, RText "")] [])
          (empty_maps (K := Z) (V := list Z))).2
     !! 7
     = Some (VText "Smith|Jones").
Proof.
  destruct (authors_id_map_unadapted plain_env authors_table
              (rows_db [] [] [(7, RText "Smith|Jones", RNull, RText "")] [])
              empty_maps) as (_ & _ & Htot).
  destruct Htot as (Hret & _ & Hlast).
  - intros nm. by eexists.
  - split; [exact Hret|].
    apply (Hlast [] [] 7 (RText "Smith|Jones") RNull (RText "")).
    + reflexivity.
    + cbn. apply not_elem_of_nil.
Defined.

(* ===================================================================== *)
(** ** SizeTable *)
(* ===================================================================== *)

(** With the pass-through adapter the loop of [read] returns, and writes
    each row's value under the row's book, one row at a time. *)
Lemma for_each_store_identity (h : handler) (self : Table)
  (rows : list (Z * raw)) (m : gmap Z value) :
  adapt self = adapt_identity ->
  for_each rows (store_adapted h self) m = (inr tt, raw_values rows m).
Proof.
  intros Had. revert m. induction rows as [|row rows IH]; intros m; [done|].
  rewrite (for_each_cons _ _ _ m (<[row.1 := of_raw row.2]> m)).
  - apply IH.
  - unfold store_adapted, mbind, M_bind, perform. by rewrite Had.
Qed.

(** One row per book, each carrying a function of the book: every listed
    book ends with its own value. *)
Lemma raw_values_per_book (f : Z -> raw) (books : list Z) (book : Z)
  (m : gmap Z value) :
  book ∈ books ->
  raw_values (map (fun b => (b, f b)) books) m !! book = Some (of_raw (f book)).
Proof.
  unfold raw_values. revert m.
  induction books as [|b books IH]; intros m Hin; [by apply elem_of_nil in Hin|].
  cbn [map foldl fst snd].
  destruct (decide (book ∈ books)) as [Hrest|Hrest]; [by apply IH|].
  apply elem_of_cons in Hin as [->|Hin]; [|done].
  clear IH. revert Hrest.
  assert (Hm : <[b := of_raw (f b)]> m !! b = Some (of_raw (f b)))
    by apply lookup_insert_eq.
  revert Hm. generalize (<[b := of_raw (f b)]> m). clear m.
  induction books as [|b' books IH]; intros m Hm Hrest; [done|].
  cbn [map foldl fst snd]. apply IH.
  - rewrite lookup_insert_ne; [done|]. intros ->. apply Hrest. by left.
  - intros Hin. apply Hrest. by right.
Qed.

(** The greatest element of a non-empty list, as [sql_max] computes it. *)
Lemma foldr_max_spec (x : Z) (l : list Z) :
  foldr Z.max x l ∈ x :: l /\ forall z, z ∈ x :: l -> z <= foldr Z.max x l.
Proof.
  induction l as [|y l [IHin IHle]]; cbn [foldr].
  - split; [by left|]. intros z Hz. apply list_elem_of_singleton in Hz. lia.
  - split.
    + destruct (Z.max_spec y (foldr Z.max x l)) as [[_ ->]|[_ ->]].
      * apply elem_of_cons in IHin as [->|Hin]; [by left|].
        right. by right.
      * right. by left.
    + intros z Hz.
      apply elem_of_cons in Hz as [->|Hz].
      * specialize (IHle x ltac:(by left)). lia.
      * apply elem_of_cons in Hz as [->|Hz]; [lia|].
        specialize (IHle z ltac:(by right)). lia.
Qed.

(** A table whose name is not ['authors'] and whose datatype is neither
    ['datetime'] nor ['bool'] passes values through. *)
Lemma Table_init_passthrough (nm : string) (md : metadata_t)
  (lt : option string) (t : Table) (dt : option string) :
  Table_init nm md lt = inr t ->
  nm <> "authors" ->
  md !! "datatype" = Some dt ->
  dt <> Some "datetime" -> dt <> Some "bool" ->
  adapt t = adapt_identity.
Proof.
  intros Hinit Hnm Hdt Hd Hb.
  rewrite (Table_init_adapt _ _ _ _ Hinit _ Hdt).
  apply String.eqb_neq in Hnm. rewrite Hnm.
  unfold adapter_for_datatype, adapters_by_datatype.
  destruct dt as [key|]; [|done]. cbn [mbind option_bind].
  rewrite lookup_insert_ne by congruence.
  rewrite lookup_singleton_ne by congruence. done.
Qed.

(** The size query of [SizeTable.read], as the store reads it. *)
Lemma parse_size_query :
  parse_query SizeTable_query
  = Some (mkQuery
            [ECol (Some "books", "id");
             ESub AggMax (None, "uncompressed_size") "data"
                  (Some ((Some "data", "book"), (Some "books", "id")))]
            "books").
Proof. vm_compute. reflexivity. Qed.

(** The subquery of the size query, for the row of [book]: it selects the
    sizes stored for [book]. *)
Lemma size_subquery_values (book : Z) (data : list data_row) :
  aggregated_values [("books", books_columns book)] "data"
    (Some ((Some "data", "book"), (Some "books", "id")))
    (None, "uncompressed_size") (map data_columns data)
  = Some (omap (fun r => if Z.eqb (data_book r) book
                         then data_uncompressed_size r else None) data).
Proof.
  induction data as [|r data IH]; [reflexivity|].
  cbn [map aggregated_values]. rewrite IH.
  assert (Hcond : condition_holds
                    [("data", data_columns r); ("books", books_columns book)]
                    (Some ((Some "data", "book"), (Some "books", "id")))
                  = Some (Z.eqb (data_book r) book)) by reflexivity.
  rewrite Hcond.
  assert (Harg : resolve
                   [("data", data_columns r); ("books", books_columns book)]
                   (None, "uncompressed_size")
                 = Some (null_or RInt (data_uncompressed_size r)))
    by reflexivity.
  rewrite Harg. cbn [omap list_omap].
  destruct (Z.eqb (data_book r) book); [|done].
  by destruct (data_uncompressed_size r).
Qed.

(** The row of the size query for one book. *)
Lemma size_query_row (lib : library) (book : Z) :
  mapM (eval_expr (library_tables lib) [("books", books_columns book)])
       [ECol (Some "books", "id");
        ESub AggMax (None, "uncompressed_size") "data"
             (Some ((Some "data", "book"), (Some "books", "id")))]
  = Some [RInt book; sql_max (stored_sizes lib book)].
Proof.
  assert (Hid : eval_expr (library_tables lib)
                  [("books", books_columns book)] (ECol (Some "books", "id"))
                = Some (RInt book)) by reflexivity.
  assert (Hsub : eval_expr (library_tables lib)
                   [("books", books_columns book)]
                   (ESub AggMax (None, "uncompressed_size") "data"
                      (Some ((Some "data", "book"), (Some "books", "id"))))
                 = Some (sql_max (stored_sizes lib book))).
  { unfold eval_expr.
    change (library_tables lib "data")
      with (Some (map data_columns (lib_data lib))).
    cbv beta iota. by rewrite size_subquery_values. }
  cbn [mapM]. by rewrite Hid, Hsub.
Qed.

(** Evaluating the text of the size query of [SizeTable.read] over the
    store of a library gives one row per book of [books], in order, with the
    greatest size stored for the book, or NULL when none is stored. *)
Lemma sqlite_size_query (lib : library) :
  execute_values (sqlite lib) SizeTable_query
  = map (fun book => (book, sql_max (stored_sizes lib book))) (lib_books lib).
Proof.
  cbn [execute_values sqlite]. unfold sql_execute. rewrite parse_size_query.
  unfold eval_query. cbn [q_from q_select].
  change (library_tables lib "books")
    with (Some (map books_columns (lib_books lib))).
  assert (Hrows : forall books,
            mapM (fun row =>
                    mapM (eval_expr (library_tables lib) [("books", row)])
                      [ECol (Some "books", "id");
                       ESub AggMax (None, "uncompressed_size") "data"
                         (Some ((Some "data", "book"), (Some "books", "id")))])
                 (map books_columns books)
            ≫= mapM as_value_row
            = Some (map (fun book => (book, sql_max (stored_sizes lib book)))
                        books)).
  { induction books as [|book books IH]; [reflexivity|].
    cbn [map].
    change (mapM ?f (?x :: ?l)) with (y ← f x; k ← mapM f l; mret (y :: k)).
    cbv beta. rewrite size_query_row.
    destruct (mapM (fun row =>
                    mapM (eval_expr (library_tables lib) [("books", row)])
                      [ECol (Some "books", "id");
                       ESub AggMax (None, "uncompressed_size") "data"
                         (Some ((Some "data", "book"), (Some "books", "id")))])
                 (map books_columns books)) as [rows|] eqn:Hm;
      [|discriminate IH].
    cbn in IH |- *. by rewrite IH. }
  cbv beta iota. by rewrite Hrows.
Qed.

(** The store reads the text it is sent: the same query with [MIN] gives the
    least size, and a text that is no query gives no row. *)
Example sqlite_reads_the_text :
  let lib := mkLibrary [1]
               [mkDataRow 1 (Some "EPUB") (Some 100) RNull;
                mkDataRow 1 (Some "PDF") (Some 250) RNull;
                mkDataRow 1 (Some "MOBI") (Some 50) RNull] in
  execute_values (sqlite lib) SizeTable_query = [(1, RInt 250)]
  /\ execute_values (sqlite lib)
       ("SELECT books.id, (SELECT MIN(uncompressed_size) FROM data " +:+
        "WHERE data.book=books.id) FROM books")
     = [(1, RInt 50)]
  /\ execute_values (sqlite lib) "MAX(uncompressed_size)" = [].
Proof. vm_compute. done. Qed.

(** C7: the text of the query of [SizeTable.read] asks the store for
    [MAX(uncompressed_size)] per book, and [read] itself only copies: it
    writes the value of each returned row under the row's book.  Hence, for a
    size table (pass-through adapter) read from a library in which [book]
    has at least one stored size, [read] returns and [book_col_map[book]] is
    the greatest of the sizes stored for [book].  The store is the one
    modelled from the spec above: it answers by evaluating the text it is
    sent, so the maximum is what this text asks for. *)
Theorem size_is_max_of_stored_sizes (h : handler) (nm : string)
  (md : metadata_t) (lt dt : option string) (self : Table) (lib : library)
  (book x : Z) (l : list Z) (m0 : gmap Z value) :
  Table_init nm md lt = inr self ->
  nm <> "authors" ->
  md !! "datatype" = Some dt ->
  dt <> Some "datetime" -> dt <> Some "bool" ->
  book ∈ lib_books lib ->
  stored_sizes lib book = x :: l ->
  str_contains "MAX(uncompressed_size)" SizeTable_query = true
  /\ (forall db : database,
        SizeTable_read h self db m0
        = (inr tt, raw_values (execute_values db SizeTable_query) ∅))
  /\ exists (m : gmap Z value) (mx : Z),
       SizeTable_read h self (sqlite lib) m0 = (inr tt, m)
       /\ m !! book = Some (VInt mx)
       /\ mx ∈ x :: l
       /\ forall z, z ∈ x :: l -> z <= mx.
Proof.
  intros Hinit Hnm Hdt Hd Hb Hbook Hsizes.
  pose proof (Table_init_passthrough _ _ _ _ _ Hinit Hnm Hdt Hd Hb) as Had.
  assert (Hcopy : forall db : database,
             SizeTable_read h self db m0
             = (inr tt, raw_values (execute_values db SizeTable_query) ∅)).
  { intros db. unfold SizeTable_read, mbind, M_bind, modify.
    by apply for_each_store_identity. }
  split; [reflexivity|]. split; [exact Hcopy|].
  exists (raw_values (execute_values (sqlite lib) SizeTable_query) ∅),
    (foldr Z.max x l).
  split; [|split].
  - by rewrite Hcopy.
  - rewrite sqlite_size_query.
    rewrite (raw_values_per_book (fun b => sql_max (stored_sizes lib b)))
      by done.
    by rewrite Hsizes.
  - apply foldr_max_spec.
Qed.

Lemma size_is_max_of_stored_sizes_witness :
  exists m : gmap Z value,
    SizeTable_read failing_env size_table
      (sqlite (mkLibrary [1; 2]
                 [mkDataRow 1 (Some "EPUB") (Some 100) (RText "book");
                  mkDataRow 1 (Some "PDF") (Some 250) (RText "book");
                  mkDataRow 2 (Some "EPUB") (Some 700) (RText "other");
                  mkDataRow 1 (Some "MOBI") (Some 50) (RText "book")]))
      ∅
    = (inr tt, m)
    /\ m !! 1 = Some (VInt 250).
Proof.
  destruct (size_is_max_of_stored_sizes failing_env "size"
              (column_metadata "float") None (Some "float") size_table
              (mkLibrary [1; 2]
                 [mkDataRow 1 (Some "EPUB") (Some 100) (RText "book");
                  mkDataRow 1 (Some "PDF") (Some 250) (RText "book");
                  mkDataRow 2 (Some "EPUB") (Some 700) (RText "other");
                  mkDataRow 1 (Some "MOBI") (Some 50) (RText "book")])
              1 100 [250; 50] ∅)
    as (_ & _ & m & mx & Hrun & Hm & Hin & Hmax).
  - reflexivity.
  - discriminate.
  - reflexivity.
  - discriminate.
  - discriminate.
  - by left.
  - reflexivity.
  - exists m. split; [exact Hrun|].
    rewrite Hm. f_equal. f_equal.
    apply Z.le_antisymm.
    + repeat (apply elem_of_cons in Hin as [->|Hin]; [lia|]).
      by apply elem_of_nil in Hin.
    + apply Hmax. right. by left.
Defined.

(* ===================================================================== *)
(** ** What the link pass leaves behind *)
(* ===================================================================== *)

(** The id-map pass of [ManyToOneTable] does not touch the two indices. *)
Lemma ManyToOneTable_read_id_maps_indices {K V : Type} `{Countable K}
  (h : handler) (self : Table) (db : database) (s s' : maps K V)
  (r : exn + unit) :
  ManyToOneTable_read_id_maps h self db s = (r, s') ->
  col_book_map s' = col_book_map s /\ book_col_map s' = book_col_map s.
Proof.
  unfold ManyToOneTable_read_id_maps, mbind, M_bind, eval.
  destruct (ManyToOneTable_id_query self) as [e|q]; [by intros [= _ <-]|].
  generalize (execute_values db q). intros rows. revert s.
  induction rows as [|row rows IH]; intros s; [by intros [= _ <-]|].
  cbn [for_each]. unfold mbind, M_bind, when, perform, modify.
  destruct (truthy row.2).
  - destruct (result h (adapt self row.2)) as [e|v]; [by intros [= _ <-]|].
    intros Hrest. by destruct (IH _ Hrest) as [-> ->].
  - cbn. apply IH.
Qed.

(** The link pass of [ManyToManyTable], from indices without any book,
    leaves indices without any book, however it ends. *)
Lemma ManyToManyTable_read_maps_no_book (self : Table) (db : database)
  (s s' : maps Z (list Z)) (r : exn + unit) :
  book_col_map s = ∅ ->
  (forall a l, col_book_map s !! a = Some l -> l = []) ->
  ManyToManyTable_read_maps self db s = (r, s') ->
  book_col_map s' = ∅ /\ forall a l, col_book_map s' !! a = Some l -> l = [].
Proof.
  intros Hfw Hinv. unfold ManyToManyTable_read_maps, mbind, M_bind, eval.
  destruct (ManyToOneTable_link_query self) as [e|q]; [by intros [= _ <-]|].
  destruct (execute_links db q) as [|row rows]; [by intros [= _ <-]|].
  rewrite (for_each_raises _ _ _ _ _ _ (ManyToManyTable_link_row_raises _ _)).
  intros [= _ <-]. rewrite ensure_col_spec. cbn [snd].
  destruct (not_in row.2 (col_book_map s)); [|done].
  split; [done|]. intros a l. cbn [set_col_book_map col_book_map].
  rewrite lookup_insert. case_decide; [by intros [= <-] | apply Hinv].
Qed.

(** Whatever the rows and however [read] ends, the indices of a
    [ManyToManyTable] hold no book: the forward index is empty and every
    list of the inverse index is empty.  The two indices never disagree,
    because neither ever has a member. *)
Lemma many_to_many_indices_never_filled (h : handler) (self : Table)
  (db : database) (s s' : maps Z (list Z)) (r : exn + unit) :
  ManyToManyTable_read h self db s = (r, s') ->
  book_col_map s' = ∅
  /\ (forall a l, col_book_map s' !! a = Some l -> l = [])
  /\ (forall a b, ~ in_inverse s' a b)
  /\ (forall a b, ~ in_forward s' b a).
Proof.
  intros Hread.
  assert (Hempty : book_col_map s' = ∅
                   /\ forall a l, col_book_map s' !! a = Some l -> l = []).
  { revert Hread. unfold ManyToManyTable_read, mbind, M_bind, modify.
    destruct (ManyToOneTable_read_id_maps h self db (reset_maps s)) as [[e|[]] s1]
      eqn:Hid;
      destruct (ManyToOneTable_read_id_maps_indices _ _ _ _ _ _ Hid)
        as [Hc Hb].
    - intros [= _ <-]. rewrite Hc, Hb. split; [done|].
      intros a l. cbn. by rewrite lookup_empty.
    - apply ManyToManyTable_read_maps_no_book; [by rewrite Hb|].
      intros a l. rewrite Hc. cbn. by rewrite lookup_empty. }
  destruct Hempty as [Hfw Hinv]. repeat split; [done|done| |].
  - intros a b (l & Hl & Hin). rewrite (Hinv _ _ Hl) in Hin.
    by apply elem_of_nil in Hin.
  - intros a b (l & Hl & _). rewrite Hfw in Hl. by rewrite lookup_empty in Hl.
Qed.

(** With at least one link row, [read] of a [ManyToManyTable] never
    returns. *)
Lemma many_to_many_never_loads (h : handler) (self : Table) (db : database)
  (q : string) (row : Z * Z) (rest : list (Z * Z)) (s : maps Z (list Z)) :
  ManyToOneTable_link_query self = inr q ->
  execute_links db q = row :: rest ->
  exists e, (ManyToManyTable_read h self db s).1 = inl e.
Proof.
  intros Hq Hrows. unfold ManyToManyTable_read, mbind, M_bind, modify.
  destruct (ManyToOneTable_read_id_maps h self db (reset_maps s)) as [[e|[]] s1];
    [by exists e|].
  unfold ManyToManyTable_read_maps, mbind, M_bind, eval. rewrite Hq, Hrows.
  rewrite (for_each_raises _ _ _ _ _ _ (ManyToManyTable_link_row_raises _ _)).
  by exists AttributeError.
Qed.

(** Likewise the forward index of a [ManyToOneTable] is empty however [read]
    ends, and with at least one link row [read] never returns. *)
Lemma many_to_one_forward_never_filled (h : handler) (self : Table)
  (db : database) (s s' : maps Z Z) (r : exn + unit) :
  ManyToOneTable_read h self db s = (r, s') -> book_col_map s' = ∅.
Proof.
  unfold ManyToOneTable_read, mbind, M_bind, modify.
  destruct (ManyToOneTable_read_id_maps h self db (reset_maps s)) as [[e|[]] s1]
    eqn:Hid;
    destruct (ManyToOneTable_read_id_maps_indices _ _ _ _ _ _ Hid) as [_ Hb].
  - by intros [= _ <-].
  - unfold ManyToOneTable_read_maps, mbind, M_bind, eval.
    destruct (ManyToOneTable_link_query self) as [e|q]; [by intros [= _ <-]|].
    destruct (execute_links db q) as [|row rows]; [by intros [= _ <-]|].
    rewrite (for_each_raises _ _ _ _ _ _ (ManyToOneTable_link_row_raises _ _)).
    intros [= _ <-]. rewrite ensure_col_spec. cbn [snd].
    by destruct (not_in row.2 (col_book_map s1)).
Qed.

Lemma many_to_one_never_loads (h : handler) (self : Table) (db : database)
  (q : string) (row : Z * Z) (rest : list (Z * Z)) (s : maps Z Z) :
  ManyToOneTable_link_query self = inr q ->
  execute_links db q = row :: rest ->
  exists e, (ManyToOneTable_read h self db s).1 = inl e.
Proof.
  intros Hq Hrows. unfold ManyToOneTable_read, mbind, M_bind, modify.
  destruct (ManyToOneTable_read_id_maps h self db (reset_maps s)) as [[e|[]] s1];
    [by exists e|].
  unfold ManyToOneTable_read_maps, mbind, M_bind, eval. rewrite Hq, Hrows.
  rewrite (for_each_raises _ _ _ _ _ _ (ManyToOneTable_link_row_raises _ _)).
  by exists AttributeError.
Qed.

(* ===================================================================== *)
(** ** The properties hold of the link pass with the append on the list *)
(* ===================================================================== *)

Section Fixed_link_pass.

Context {K X : Type} `{Countable K}.

(** Membership in the lists of a map after one "create if absent, then
    append". *)
Lemma appended_elem (m : gmap K (list X)) (key k0 : K) (x x0 : X) :
  (exists l, appended m key x !! k0 = Some l /\ x0 ∈ l)
  <-> (exists l, m !! k0 = Some l /\ x0 ∈ l) \/ (k0 = key /\ x0 = x).
Proof.
  unfold appended. destruct (decide (key = k0)) as [->|Hne].
  - rewrite lookup_insert_eq. split.
    + intros (l & [= <-] & Hin). apply elem_of_app in Hin as [Hin|Hin].
      * left. destruct (m !! k0) as [l0|]; [eauto|].
        by apply elem_of_nil in Hin.
      * right. by apply list_elem_of_singleton in Hin.
    + intros [(l & Hl & Hin)|[_ ->]]; eexists; (split; [done|]).
      * rewrite Hl. apply elem_of_app. by left.
      * apply elem_of_app. right. by apply list_elem_of_singleton.
  - rewrite lookup_insert_ne by done. split; [by left|].
    intros [?|[-> _]]; done.
Qed.

End Fixed_link_pass.

(** "Create the list if absent, then append to it" on the inverse index. *)
Lemma ensure_then_append {K V : Type} `{Countable K} (key : K) (book : Z)
  (s : maps K V) :
  (ensure_col key ;; col_list_append key book) s
  = (inr tt, set_col_book_map (fun m => appended m key book) s).
Proof.
  unfold mbind, M_bind. rewrite ensure_col_spec.
  unfold col_list_append, get_self, eval, modify, mbind, M_bind, dict_getitem,
    not_in, appended.
  destruct s as [im em cbm bcm am]. cbn [col_book_map set_col_book_map].
  destruct (cbm !! key) as [l|] eqn:Hl.
  - unfold set_col_book_map.
    cbn [col_book_map id_map extra_map book_col_map alink_map].
    by rewrite Hl.
  - unfold set_col_book_map.
    cbn [col_book_map id_map extra_map book_col_map alink_map].
    rewrite lookup_insert_eq. unfold set_col_book_map.
    cbn [col_book_map id_map extra_map book_col_map alink_map].
    by rewrite Hl, insert_insert_eq.
Qed.

(** "Create the list if absent, then append to it" on the forward index. *)
Lemma ensure_then_append_book {K X : Type} `{Countable K} (book : Z) (x : X)
  (s : maps K (list X)) :
  (ensure_book book ;; book_col_map_append book x) s
  = (inr tt, set_book_col_map (fun m => appended m book x) s).
Proof.
  unfold mbind, M_bind, ensure_book, book_col_map_append, get_self, eval,
    modify, when, mbind, M_bind, dict_getitem, not_in, appended.
  destruct s as [im em cbm bcm am]. cbn [book_col_map set_book_col_map].
  destruct (bcm !! book) as [l|] eqn:Hl.
  - unfold set_book_col_map, mret, M_ret.
    cbn [col_book_map id_map extra_map book_col_map alink_map].
    by rewrite Hl.
  - unfold set_book_col_map.
    cbn [col_book_map id_map extra_map book_col_map alink_map].
    rewrite lookup_insert_eq. unfold set_book_col_map.
    cbn [col_book_map id_map extra_map book_col_map alink_map].
    by rewrite Hl, insert_insert_eq.
Qed.

Lemma ManyToManyTable_link_row_fixed_spec (row : Z * Z)
  (s : maps Z (list Z)) :
  ManyToManyTable_link_row_fixed row s
  = (inr tt,
     set_book_col_map (fun m => appended m row.1 row.2)
       (set_col_book_map (fun m => appended m row.2 row.1) s)).
Proof.
  unfold ManyToManyTable_link_row_fixed.
  change (ensure_col row.2 ;; col_list_append row.2 row.1 ;;
          ensure_book row.1 ;; book_col_map_append row.1 row.2)
    with (mbind (M := M (maps Z (list Z)))
            (fun _ : unit =>
               mbind (fun _ : unit =>
                        ensure_book row.1 ;; book_col_map_append row.1 row.2)
                     (col_list_append row.2 row.1))
            (ensure_col row.2)).
  unfold mbind at 1 2. unfold M_bind at 1 2.
  pose proof (ensure_then_append (V := list Z) row.2 row.1 s) as Hinv.
  unfold mbind, M_bind in Hinv.
  destruct (ensure_col row.2 s) as [[e|[]] s1]; [done|].
  rewrite Hinv. apply ensure_then_append_book.
Qed.

Lemma ManyToOneTable_link_row_fixed_spec (row : Z * Z) (s : maps Z Z) :
  ManyToOneTable_link_row_fixed row s
  = (inr tt,
     set_book_col_map <[row.1 := row.2]>
       (set_col_book_map (fun m => appended m row.2 row.1) s)).
Proof.
  unfold ManyToOneTable_link_row_fixed.
  change (ensure_col row.2 ;; col_list_append row.2 row.1 ;;
          modify (set_book_col_map <[row.1 := row.2]>))
    with (mbind (M := M (maps Z Z))
            (fun _ : unit =>
               mbind (fun _ : unit =>
                        modify (set_book_col_map <[row.1 := row.2]>))
                     (col_list_append row.2 row.1))
            (ensure_col row.2)).
  unfold mbind at 1 2. unfold M_bind at 1 2.
  pose proof (ensure_then_append (V := Z) row.2 row.1 s) as Hinv.
  unfold mbind, M_bind in Hinv.
  destruct (ensure_col row.2 s) as [[e|[]] s1]; [done|].
  by rewrite Hinv.
Qed.

(** With the append on the list, the link pass of the many-to-many table
    returns for every sequence of rows, and a book is in the inverse list of
    an item exactly when the item is in the forward list of the book,
    exactly when the link is one of the rows. *)
Lemma fixed_many_to_many_consistent (rows : list (Z * Z)) :
  exists s' : maps Z (list Z),
    for_each rows ManyToManyTable_link_row_fixed empty_maps = (inr tt, s')
    /\ forall a b, (in_inverse s' a b <-> (b, a) ∈ rows)
                   /\ (in_forward s' b a <-> (b, a) ∈ rows).
Proof.
  assert (Hgen : forall s : maps Z (list Z),
    exists s', for_each rows ManyToManyTable_link_row_fixed s = (inr tt, s')
      /\ forall a b,
           (in_inverse s' a b <-> in_inverse s a b \/ (b, a) ∈ rows)
           /\ (in_forward s' b a <-> in_forward s b a \/ (b, a) ∈ rows)).
  { induction rows as [|[b0 a0] rows IH]; intros s.
    - exists s. split; [done|]. intros a b.
      split; (split; [by left|]); intros [?|Hin]; try done;
        by apply elem_of_nil in Hin.
    - pose proof (ManyToManyTable_link_row_fixed_spec (b0, a0) s) as Hrow.
      destruct (IH (set_book_col_map (fun m => appended m b0 a0)
                      (set_col_book_map (fun m => appended m a0 b0) s)))
        as (s' & Hrest & Hmem).
      exists s'. split; [by rewrite (for_each_cons _ _ _ _ _ Hrow)|].
      intros a b. destruct (Hmem a b) as [Hinv Hfw]. split.
      + rewrite Hinv. unfold in_inverse at 1.
        cbn [set_book_col_map set_col_book_map col_book_map].
        rewrite appended_elem, elem_of_cons. unfold in_inverse.
        split; [intros [[?|[-> ->]]|?] | intros [?|[[= -> ->]|?]]]; eauto.
      + rewrite Hfw. unfold in_forward at 1.
        cbn [set_book_col_map set_col_book_map book_col_map].
        rewrite appended_elem, elem_of_cons. unfold in_forward.
        split; [intros [[?|[-> ->]]|?] | intros [?|[[= -> ->]|?]]]; eauto. }
  destruct (Hgen empty_maps) as (s' & Hrun & Hmem).
  exists s'. split; [done|]. intros a b. destruct (Hmem a b) as [Hinv Hfw].
  split.
  - rewrite Hinv. split; [intros [(l & Hl & _)|?] | by right]; [|done].
    cbn in Hl. by rewrite lookup_empty in Hl.
  - rewrite Hfw. split; [intros [(l & Hl & _)|?] | by right]; [|done].
    cbn in Hl. by rewrite lookup_empty in Hl.
Qed.

(** With the append on the list, the link pass of the many-to-one table
    returns for every sequence of rows; the forward index holds, for each
    book, the item of the last row of the book, and the book is in the
    inverse list of the item that the forward index gives it. *)
Lemma fixed_many_to_one_consistent (rows : list (Z * Z)) :
  exists s' : maps Z Z,
    for_each rows ManyToOneTable_link_row_fixed empty_maps = (inr tt, s')
    /\ (forall a b, in_inverse s' a b <-> (b, a) ∈ rows)
    /\ (forall a b, book_col_map s' !! b = Some a -> in_inverse s' a b)
    /\ (forall pre post a b,
          rows = pre ++ (b, a) :: post -> b ∉ map fst post ->
          book_col_map s' !! b = Some a).
Proof.
  assert (Hgen : forall s : maps Z Z,
    exists s', for_each rows ManyToOneTable_link_row_fixed s = (inr tt, s')
      /\ (forall a b, in_inverse s' a b <-> in_inverse s a b \/ (b, a) ∈ rows)
      /\ (forall a b, book_col_map s' !! b = Some a ->
                      book_col_map s !! b = Some a \/ (b, a) ∈ rows)
      /\ (forall b, b ∉ map fst rows ->
                    book_col_map s' !! b = book_col_map s !! b)
      /\ (forall pre post a b,
            rows = pre ++ (b, a) :: post -> b ∉ map fst post ->
            book_col_map s' !! b = Some a)).
  { induction rows as [|[b0 a0] rows IH]; intros s.
    - exists s. split; [done|]. split; [|split; [|split]].
      + intros a b. split; [by left|].
        intros [?|Hin]; [done | by apply elem_of_nil in Hin].
      + intros a b Hb. by left.
      + done.
      + intros pre post a b Hnil. by destruct pre.
    - pose proof (ManyToOneTable_link_row_fixed_spec (b0, a0) s) as Hrow.
      destruct (IH (set_book_col_map <[b0 := a0]>
                      (set_col_book_map (fun m => appended m a0 b0) s)))
        as (s' & Hrest & Hinv & Hfw & Hkeep & Hlast).
      exists s'. split; [by rewrite (for_each_cons _ _ _ _ _ Hrow)|].
      split; [|split; [|split]].
      + intros a b. rewrite Hinv. unfold in_inverse at 1.
        cbn [set_book_col_map set_col_book_map col_book_map].
        rewrite appended_elem, elem_of_cons. unfold in_inverse.
        split; [intros [[?|[-> ->]]|?] | intros [?|[[= -> ->]|?]]]; eauto.
      + intros a b Hb. destruct (Hfw _ _ Hb) as [Hold|Hin].
        * cbn [set_book_col_map set_col_book_map book_col_map] in Hold.
          rewrite lookup_insert in Hold. case_decide as Hd.
          -- injection Hold as <-. subst b0. right. by left.
          -- by left.
        * right. by right.
      + intros b Hnot. rewrite Hkeep.
        * cbn [set_book_col_map set_col_book_map book_col_map].
          rewrite lookup_insert_ne; [done|].
          intros ->. apply Hnot. cbn. by left.
        * intros Hin. apply Hnot. cbn. by right.
      + intros pre post a b Hrows Hpost. destruct pre as [|row pre].
        * cbn in Hrows. injection Hrows as -> -> <-.
          rewrite (Hkeep b Hpost).
          cbn [set_book_col_map set_col_book_map book_col_map].
          apply lookup_insert_eq.
        * cbn in Hrows. injection Hrows as _ ->. by eapply Hlast. }
  destruct (Hgen empty_maps) as (s' & Hrun & Hinv & Hfw & _ & Hlast).
  assert (Hinv' : forall a b, in_inverse s' a b <-> (b, a) ∈ rows).
  { intros a b. rewrite Hinv.
    split; [intros [(l & Hl & _)|?] | by right]; [|done].
    cbn in Hl. by rewrite lookup_empty in Hl. }
  exists s'. split; [done|]. split; [done|]. split; [|done].
  intros a b Hb. apply Hinv'. destruct (Hfw _ _ Hb) as [Hold|?]; [|done].
  cbn in Hold. by rewrite lookup_empty in Hold.
Qed.

(* ===================================================================== *)
(** ** Further properties: the constructor and the adapters *)
(* ===================================================================== *)

(** X1: [Table.__init__] raises exactly when the metadata has no ['datatype']
    entry, or when no usable link table is given ([None] or the empty text)
    and the metadata has no ['table'] entry; the exception is then
    [KeyError] and nothing else. *)
Theorem Table_init_raises_iff (nm : string) (md : metadata_t)
  (lt : option string) :
  (Table_init nm md lt = inl KeyError
   <-> md !! "datatype" = None
       \/ ((lt = None \/ lt = Some "") /\ md !! "table" = None))
  /\ (forall e, Table_init nm md lt = inl e -> e = KeyError).
Proof.
  unfold Table_init, dict_getitem.
  destruct (md !! "datatype") as [dt|]; [|split; [split; auto | by intros e [=]]].
  destruct lt as [[|c l]|]; destruct (md !! "table") as [tb|]; split;
    try (by intros e [=]); split; try discriminate; auto;
    intros [?|[[?|?] ?]]; congruence.
Qed.

(** X2: a table that was constructed keeps the name and the metadata it was
    given; a non-empty [link_table] argument is kept as it is, without the
    metadata being asked for a table; otherwise the link table is
    ['books_<table>_link'] for the ['table'] entry of the metadata, with
    [None] printed as ["None"]. *)
Theorem Table_init_link_table (nm : string) (md : metadata_t)
  (lt : option string) (t : Table) :
  Table_init nm md lt = inr t ->
  name t = nm /\ metadata t = md
  /\ (forall c s, lt = Some (String c s) -> link_table t = String c s)
  /\ (lt = None \/ lt = Some "" ->
      exists table, md !! "table" = Some table
                    /\ link_table t = "books_" +:+ py_str table +:+ "_link").
Proof.
  unfold Table_init, dict_getitem.
  destruct (md !! "datatype") as [dt|]; [|discriminate].
  destruct lt as [[|c l]|]; destruct (md !! "table") as [tb|];
    try discriminate; intros [= <-]; cbn [name metadata link_table];
    repeat split; try congruence; try (by intros [?|?]); eauto;
    by intros c' s' [= -> ->].
Qed.

Lemma Table_init_link_table_witness :
  link_table tags_table = "books_tags_link"
  /\ (forall t, Table_init "tags" (<["table" := None]> (link_metadata "x" "tag"))
                  None = inr t ->
                link_table t = "books_None_link")
  /\ (forall t, Table_init "tags" {[ "datatype" := Some "text" ]}
                  (Some "my_links") = inr t ->
                link_table t = "my_links").
Proof.
  split; [|split].
  - destruct (Table_init_link_table "tags" (link_metadata "tags" "tag") None
                tags_table) as (_ & _ & _ & Hderived); [reflexivity|].
    destruct Hderived as (table & Htable & ->); [by left|].
    by injection Htable as <-.
  - intros t Ht.
    destruct (Table_init_link_table _ _ _ _ Ht) as (_ & _ & _ & Hderived).
    destruct Hderived as (table & Htable & ->); [by left|].
    by injection Htable as <-.
  - intros t Ht.
    destruct (Table_init_link_table _ _ _ _ Ht) as (_ & _ & Hgiven & _).
    by apply Hgiven.
Defined.

(** X3: for a table whose name is not ['authors'], the datatype alone picks
    the adapter: ['datetime'] gives [_c_convert_timestamp]; any datatype
    other than ['datetime'] and ['bool'], [None] included, gives the
    pass-through, which returns every raw value as it is (NULL as [None],
    the empty text as the empty text) and calls nothing. *)
Theorem adapter_chosen_by_datatype (nm : string) (md : metadata_t)
  (lt dt : option string) (t : Table) :
  Table_init nm md lt = inr t ->
  nm <> "authors" ->
  md !! "datatype" = Some dt ->
  (dt = Some "datetime" -> adapt t = _c_convert_timestamp)
  /\ (dt <> Some "datetime" -> dt <> Some "bool" ->
      forall h x, run h (adapt t x) = ([], inr (of_raw x))).
Proof.
  intros Hinit Hnm Hdt. split.
  - intros ->. rewrite (Table_init_adapt _ _ _ _ Hinit _ Hdt).
    apply String.eqb_neq in Hnm. by rewrite Hnm.
  - intros Hd Hb h x.
    by rewrite (Table_init_passthrough _ _ _ _ _ Hinit Hnm Hdt Hd Hb).
Qed.

Lemma adapter_chosen_by_datatype_witness :
  adapt pubdate_table = _c_convert_timestamp
  /\ run failing_env (adapt size_table (RText "")) = ([], inr (VText "")).
Proof.
  split.
  - apply (adapter_chosen_by_datatype "pubdate" (column_metadata "datetime")
             None (Some "datetime") pubdate_table); try reflexivity.
    discriminate.
  - apply (adapter_chosen_by_datatype "size" (column_metadata "float")
             None (Some "float") size_table); try reflexivity; discriminate.
Defined.

(** The calls and the result of a program that starts with a call. *)
Lemma run_Vis {A X : Type} (h : handler) (c : ext_call X)
  (k : exn + X -> prog A) :
  calls h (Vis c k) = log c :: calls h (k (h X c))
  /\ result h (Vis c k) = result h (k (h X c)).
Proof.
  unfold calls, result. cbn [run]. by destruct (run h (k (h X c))).
Qed.

Lemma fast_calls_cons {X : Type} (c : ext_call X) (tr : list logged) :
  fast_calls (log c :: tr)
  = match c with
    | SpeedupParseDate s => s :: fast_calls tr
    | _ => fast_calls tr
    end.
Proof. by destruct c. Qed.

Lemma flexible_calls_cons {X : Type} (c : ext_call X) (tr : list logged) :
  flexible_calls (log c :: tr)
  = match c with
    | ParseDate val as_utc => (val, as_utc) :: flexible_calls tr
    | _ => flexible_calls tr
    end.
Proof. by destruct c. Qed.

(** The calls of the tail of [_c_convert_timestamp] when the fast parser
    gave a tuple: none to a parser. *)
Lemma convert_timestamp_finish_some (h : handler) (val : raw)
  (f : date_fields) :
  flexible_calls (calls h (convert_timestamp_finish val (Some f))) = []
  /\ fast_calls (calls h (convert_timestamp_finish val (Some f))) = []
  /\ result h (convert_timestamp_finish val (Some f))
     = match h datetime (NewDatetime f) with
       | inl e => inl e
       | inr d =>
           match h datetime (AsLocalTimezone d) with
           | inl e => inl e
           | inr d' => inr (VDateTime d')
           end
       end.
Proof.
  cbn [convert_timestamp_finish].
  destruct (run_Vis h (NewDatetime f) (fun r =>
              match r with
              | inl e => Ret (inl e)
              | inr d =>
                  Vis (AsLocalTimezone d) (fun r' =>
                    match r' with
                    | inl e => Ret (inl e)
                    | inr d' => Ret (inr (VDateTime d'))
                    end)
              end)) as [-> ->].
  rewrite flexible_calls_cons, fast_calls_cons.
  destruct (h datetime (NewDatetime f)) as [e|d]; [done|].
  destruct (run_Vis h (AsLocalTimezone d) (fun r' =>
              match r' with
              | inl e => Ret (inl e)
              | inr d' => Ret (inr (VDateTime d'))
              end)) as [-> ->].
  rewrite flexible_calls_cons, fast_calls_cons.
  by destruct (h datetime (AsLocalTimezone d)) as [e|d'].
Qed.

(** X4: when the fast parser returns a tuple for the stripped text,
    [_c_convert_timestamp] never calls the flexible parser: the result is the
    [datetime] built from the tuple and converted to the local zone, and an
    exception of either of these two steps is the outcome of the adapter. *)
Theorem convert_timestamp_fast_path (h : handler) (s : string)
  (f : date_fields) :
  s <> "" ->
  h (option date_fields) (SpeedupParseDate (strip s)) = inr (Some f) ->
  flexible_calls (calls h (_c_convert_timestamp (RText s))) = []
  /\ fast_calls (calls h (_c_convert_timestamp (RText s))) = [strip s]
  /\ result h (_c_convert_timestamp (RText s))
     = match h datetime (NewDatetime f) with
       | inl e => inl e
       | inr d =>
           match h datetime (AsLocalTimezone d) with
           | inl e => inl e
           | inr d' => inr (VDateTime d')
           end
       end.
Proof.
  intros Hs Hfast. destruct s as [|c s]; [done|].
  destruct (convert_timestamp_finish_some h (RText (String c s)) f)
    as (Hflex & Hfc & Hres).
  unfold _c_convert_timestamp. cbn [truthy negb raw_strip].
  destruct (run_Vis h (SpeedupParseDate (strip (String c s)))
              (fun r => convert_timestamp_finish (RText (String c s))
                          (swallow r))) as [-> ->].
  rewrite Hfast. cbn [swallow]. rewrite Hres.
  rewrite flexible_calls_cons, fast_calls_cons.
  by rewrite Hflex, Hfc.
Qed.

Lemma convert_timestamp_fast_path_witness :
  flexible_calls (calls fast_env (_c_convert_timestamp (RText " 2011-01-02 ")))
  = []
  /\ fast_calls (calls fast_env (_c_convert_timestamp (RText " 2011-01-02 ")))
     = ["2011-01-02"]
  /\ result fast_env (_c_convert_timestamp (RText " 2011-01-02 "))
     = inr (VDateTime (mkDatetime 2011 1 2 3 4 5 3600)).
Proof.
  apply (convert_timestamp_fast_path fast_env " 2011-01-02 "
           (2011, 1, 2, 3, 4, 5, 3600)).
  - discriminate.
  - reflexivity.
Defined.

(** The parser calls of the tail of [_c_convert_timestamp]. *)
Lemma convert_timestamp_finish_calls (h : handler) (val : raw)
  (ret : option date_fields) :
  fast_calls (calls h (convert_timestamp_finish val ret)) = []
  /\ flexible_calls (calls h (convert_timestamp_finish val ret))
     = match ret with
       | None => [(val, false)]
       | Some _ => []
       end.
Proof.
  destruct ret as [f|].
  - by destruct (convert_timestamp_finish_some h val f) as (-> & -> & _).
  - unfold calls. by rewrite convert_timestamp_fallback.
Qed.

(** X5: whatever the environment answers, [_c_convert_timestamp] calls the
    fast parser only for a non-empty text, once, with the stripped text (a
    number is never handed to it), and calls the flexible parser at most
    once, never with another value than the one received and never with
    [as_utc=True]. *)
Theorem convert_timestamp_call_discipline (h : handler) (val : raw) :
  fast_calls (calls h (_c_convert_timestamp val))
  = match val with
    | RText (String c s) => [strip (String c s)]
    | _ => []
    end
  /\ (flexible_calls (calls h (_c_convert_timestamp val)) = []
      \/ flexible_calls (calls h (_c_convert_timestamp val)) = [(val, false)]).
Proof.
  unfold _c_convert_timestamp.
  destruct (truthy val) eqn:Ht; cbn [negb].
  - destruct val as [|z|r|[|c s]]; try discriminate Ht; cbn [raw_strip];
      try (destruct (convert_timestamp_finish_calls h (RInt z) None)
             as [-> ->]; by auto);
      try (destruct (convert_timestamp_finish_calls h (RReal r) None)
             as [-> ->]; by auto).
    destruct (run_Vis h (SpeedupParseDate (strip (String c s)))
                (fun r => convert_timestamp_finish (RText (String c s))
                            (swallow r))) as [-> _].
    rewrite flexible_calls_cons, fast_calls_cons.
    destruct (convert_timestamp_finish_calls h (RText (String c s))
                (swallow (h _ (SpeedupParseDate (strip (String c s))))))
      as [-> ->].
    split; [done|]. destruct (swallow _); auto.
  - split; [|by left].
    by destruct val as [|z|r|[|c s]].
Qed.

Lemma map_char_idempotent (a b : ascii) (s : string) :
  a <> b -> map_char a b (map_char a b s) = map_char a b s.
Proof.
  intros Hab. induction s as [|c s IH]; [done|].
  cbn [map_char]. rewrite IH. f_equal.
  destruct (Ascii.eqb c a) eqn:Hc; [|by rewrite Hc].
  destruct (Ascii.eqb b a) eqn:Hb; [|done].
  apply Ascii.eqb_eq in Hb. congruence.
Qed.

(** X6: the legacy adapter of ['authors'] turns a non-empty name into a text
    of the same length in which no ['|'] is left and every character other
    than ['|'] is where it was; adapting the result again changes nothing. *)
Theorem authors_adapter_leaves_no_pipe (h : handler) (c : ascii) (s : string) :
  exists v,
    run h (adapt_authors_legacy (RText (String c s))) = ([], inr (VText v))
    /\ String.length v = String.length (String c s)
    /\ (forall i, String.get i v <> Some "|"%char)
    /\ (forall i ch, String.get i (String c s) = Some ch -> ch <> "|"%char ->
                     String.get i v = Some ch)
    /\ run h (adapt_authors_legacy (RText v)) = ([], inr (VText v)).
Proof.
  exists (map_char "|" "," (String c s)).
  assert (Hrun : forall c' s',
             run h (adapt_authors_legacy (RText (String c' s')))
             = ([], inr (VText (map_char "|" "," (String c' s'))))).
  { intros c' s'. unfold adapt_authors_legacy. cbn [truthy raw_replace run].
    by rewrite (str_replace_char "|" ","). }
  split; [apply Hrun|]. split; [apply map_char_length|].
  split; [|split].
  - intros i. rewrite map_char_get.
    destruct (String.get i (String c s)) as [ch|]; [|done].
    cbn [fmap option_fmap option_map].
    destruct (Ascii.eqb ch "|") eqn:Hch; [done|].
    apply Ascii.eqb_neq in Hch. congruence.
  - intros i ch Hget Hne. rewrite map_char_get, Hget.
    cbn [fmap option_fmap option_map].
    apply Ascii.eqb_neq in Hne. by rewrite Hne.
  - destruct (map_char "|" "," (String c s)) as [|c' s'] eqn:Hm;
      [discriminate Hm|].
    rewrite Hrun, <- Hm. by rewrite map_char_idempotent.
Qed.

(* ===================================================================== *)
(** ** Further properties: OneToOneTable and SizeTable *)
(* ===================================================================== *)

(** One turn of the loop of [read]: the adapted value is written under the
    book, or the exception of the adapter ends the turn with the map as it
    was. *)
Lemma store_adapted_spec (h : handler) (self : Table) (row : Z * raw)
  (m : gmap Z value) :
  store_adapted h self row m
  = match adapted h self row.2 with
    | inr v => (inr tt, <[row.1 := v]> m)
    | inl e => (inl e, m)
    end.
Proof.
  unfold store_adapted, adapted, mbind, M_bind, perform, modify.
  by destruct (result h (adapt self row.2)).
Qed.

(** The loop returns when every adaptation returns. *)
Lemma for_each_store_returns (h : handler) (self : Table)
  (rows : list (Z * raw)) (m : gmap Z value) :
  (forall row, row ∈ rows -> returns (adapted h self row.2)) ->
  for_each rows (store_adapted h self) m
  = (inr tt, adapted_values h self rows m).
Proof.
  revert m. induction rows as [|row rows IH]; intros m Hok; [done|].
  destruct (Hok row) as [v Hv]; [by left|].
  rewrite (for_each_cons _ _ _ m (<[row.1 := v]> m)).
  - rewrite IH by (intros r Hr; apply Hok; by right).
    unfold adapted_values. cbn [foldl]. by rewrite Hv.
  - by rewrite store_adapted_spec, Hv.
Qed.

(** The loop stops at the first row whose adaptation raises. *)
Lemma for_each_store_raises (h : handler) (self : Table)
  (pre post : list (Z * raw)) (book : Z) (x : raw) (e : exn)
  (m : gmap Z value) :
  (forall row, row ∈ pre -> returns (adapted h self row.2)) ->
  adapted h self x = inl e ->
  for_each (pre ++ (book, x) :: post) (store_adapted h self) m
  = (inl e, adapted_values h self pre m).
Proof.
  revert m. induction pre as [|row pre IH]; intros m Hok He.
  - cbn [app]. apply for_each_raises. rewrite store_adapted_spec.
    cbn [snd]. by rewrite He.
  - destruct (Hok row) as [v Hv]; [by left|].
    cbn [app]. rewrite (for_each_cons _ _ _ m (<[row.1 := v]> m)).
    + rewrite IH by (try done; intros r Hr; apply Hok; by right).
      unfold adapted_values. cbn [foldl]. by rewrite Hv.
    + by rewrite store_adapted_spec, Hv.
Qed.

(** A book that has no row keeps what the map had for it. *)
Lemma adapted_values_absent (h : handler) (self : Table)
  (rows : list (Z * raw)) (book : Z) (m : gmap Z value) :
  book ∉ map fst rows -> adapted_values h self rows m !! book = m !! book.
Proof.
  unfold adapted_values. revert m.
  induction rows as [|row rows IH]; intros m Hnot; [done|].
  cbn [foldl]. rewrite IH by (intros Hin; apply Hnot; cbn; by right).
  destruct (adapted h self row.2); [done|].
  rewrite lookup_insert_ne; [done|].
  intros Heq. apply Hnot. cbn. rewrite Heq. by left.
Qed.

(** The entry of a book is the adapted value of its last row. *)
Lemma adapted_values_last (h : handler) (self : Table)
  (pre post : list (Z * raw)) (book : Z) (x : raw) (v : value)
  (m : gmap Z value) :
  book ∉ map fst post ->
  adapted h self x = inr v ->
  adapted_values h self (pre ++ (book, x) :: post) m !! book = Some v.
Proof.
  intros Hpost Hv.
  pose proof (adapted_values_absent h self post book) as Habs.
  unfold adapted_values in *. rewrite foldl_app. cbn [foldl].
  rewrite Habs by done. cbn [fst snd]. rewrite Hv.
  apply lookup_insert_eq.
Qed.

(** X7: [OneToOneTable.read], when the metadata names the table and the
    column and no adaptation raises, returns with a map built from the rows
    alone: a book has the adapted value of its last row, a book without a
    row has no entry, whatever the map held before the call. *)
Theorem one_to_one_read_last_row_wins (h : handler) (self : Table)
  (db : database) (q : string) (m0 : gmap Z value) :
  OneToOneTable_query self = inr q ->
  (forall row, row ∈ execute_values db q -> returns (adapted h self row.2)) ->
  (OneToOneTable_read h self db m0).1 = inr tt
  /\ (forall pre post book x v,
        execute_values db q = pre ++ (book, x) :: post ->
        book ∉ map fst post ->
        adapted h self x = inr v ->
        (OneToOneTable_read h self db m0).2 !! book = Some v)
  /\ (forall book,
        book ∉ map fst (execute_values db q) ->
        (OneToOneTable_read h self db m0).2 !! book = None).
Proof.
  intros Hq Hok.
  assert (Hread : OneToOneTable_read h self db m0
                  = (inr tt, adapted_values h self (execute_values db q) ∅)).
  { unfold OneToOneTable_read, mbind, M_bind, modify, eval. rewrite Hq.
    by apply for_each_store_returns. }
  rewrite Hread. cbn [fst snd]. split; [done|]. split.
  - intros pre post book x v -> Hpost Hv. by apply adapted_values_last.
  - intros book Hnot. by rewrite adapted_values_absent.
Qed.

Lemma one_to_one_read_last_row_wins_witness :
  let db := rows_db [(1, RInt 1); (2, RNull); (1, RInt 0)] [] [] [] in
  let out := OneToOneTable_read failing_env read_flag_table db {[ 9 := VNone ]} in
  out.1 = inr tt
  /\ out.2 !! 1 = Some (VBool false)
  /\ out.2 !! 2 = Some (VBool false)
  /\ out.2 !! 9 = None.
Proof.
  cbv zeta.
  destruct (one_to_one_read_last_row_wins failing_env read_flag_table
              (rows_db [(1, RInt 1); (2, RNull); (1, RInt 0)] [] [] [])
              "SELECT id, flag FROM books" {[ 9 := VNone ]})
    as (Hret & Hlast & Habsent).
  - reflexivity.
  - intros row _. by eexists.
  - split; [exact Hret|]. split; [|split].
    + apply (Hlast [(1, RInt 1); (2, RNull)] [] 1 (RInt 0)); try reflexivity.
      apply not_elem_of_nil.
    + apply (Hlast [(1, RInt 1)] [(1, RInt 0)] 2 RNull); try reflexivity.
      cbn. intros Hin. apply list_elem_of_singleton in Hin. discriminate.
    + apply Habsent. cbn. intros Hin.
      repeat (apply elem_of_cons in Hin as [Hin|Hin]; [discriminate|]).
      by apply elem_of_nil in Hin.
Defined.

(** X8: [OneToOneTable.read] empties [book_col_map] before it looks at the
    metadata: when the metadata has no ['table'] or no ['column'] entry it
    raises [KeyError], sends no query, and the map that was there is gone. *)
Theorem one_to_one_read_missing_metadata (h : handler) (self : Table)
  (db : database) (m0 : gmap Z value) :
  metadata self !! "table" = None \/ metadata self !! "column" = None ->
  OneToOneTable_read h self db m0 = (inl KeyError, ∅).
Proof.
  intros Hmissing.
  unfold OneToOneTable_read, mbind, M_bind, modify, eval, OneToOneTable_query,
    dict_getitem.
  destruct (metadata self !! "table") as [tb|];
    destruct (metadata self !! "column") as [cl|]; try done.
  by destruct Hmissing.
Qed.

Lemma one_to_one_read_missing_metadata_witness :
  OneToOneTable_read failing_env bare_table
    (rows_db [(1, RInt 1)] [] [] []) {[ 9 := VNone ]}
  = (inl KeyError, ∅).
Proof.
  apply (one_to_one_read_missing_metadata failing_env bare_table).
  by left.
Defined.

(** X9: when the adapter raises on the value of some row, [OneToOneTable.read]
    raises that exception at once: the map holds the rows before that one and
    nothing of the rows after it. *)
Theorem one_to_one_read_stops_at_bad_value (h : handler) (self : Table)
  (db : database) (q : string) (pre post : list (Z * raw)) (book : Z)
  (x : raw) (e : exn) (m0 : gmap Z value) :
  OneToOneTable_query self = inr q ->
  execute_values db q = pre ++ (book, x) :: post ->
  (forall row, row ∈ pre -> returns (adapted h self row.2)) ->
  adapted h self x = inl e ->
  OneToOneTable_read h self db m0 = (inl e, adapted_values h self pre ∅)
  /\ (forall b, b ∉ map fst pre ->
                (OneToOneTable_read h self db m0).2 !! b = None).
Proof.
  intros Hq Hrows Hok He.
  assert (Hread : OneToOneTable_read h self db m0
                  = (inl e, adapted_values h self pre ∅)).
  { unfold OneToOneTable_read, mbind, M_bind, modify, eval.
    rewrite Hq, Hrows. by apply for_each_store_raises. }
  split; [done|]. intros b Hb. rewrite Hread. cbn [snd].
  by rewrite adapted_values_absent.
Qed.

Lemma one_to_one_read_stops_at_bad_value_witness :
  OneToOneTable_read failing_env pubdate_table
    (rows_db [(1, RNull); (2, RText "someday"); (3, RNull)] [] [] []) ∅
  = (inl (OtherError "unavailable"), {[ 1 := VNone ]}).
Proof.
  apply (one_to_one_read_stops_at_bad_value failing_env pubdate_table
           (rows_db [(1, RNull); (2, RText "someday"); (3, RNull)] [] [] [])
           "SELECT id, flag FROM books" [(1, RNull)] [(3, RNull)] 2
           (RText "someday") (OtherError "unavailable") ∅).
  - reflexivity.
  - reflexivity.
  - intros row Hrow. apply list_elem_of_singleton in Hrow as ->. by eexists.
  - reflexivity.
Defined.

(** X10: [SizeTable.read] sends its own fixed query and never looks at the
    metadata: on a table object without any metadata entry, where
    [OneToOneTable.read] raises [KeyError], it returns as soon as no
    adaptation raises; a book then has the adapted value of its last row and
    a book without a row has no entry, whatever the map held before. *)
Theorem size_read_needs_no_metadata (h : handler) (self : Table)
  (db : database) (m0 : gmap Z value) :
  (forall row, row ∈ execute_values db SizeTable_query ->
               returns (adapted h self row.2)) ->
  (SizeTable_read h self db m0).1 = inr tt
  /\ (forall pre post book x v,
        execute_values db SizeTable_query = pre ++ (book, x) :: post ->
        book ∉ map fst post ->
        adapted h self x = inr v ->
        (SizeTable_read h self db m0).2 !! book = Some v)
  /\ (forall book,
        book ∉ map fst (execute_values db SizeTable_query) ->
        (SizeTable_read h self db m0).2 !! book = None).
Proof.
  intros Hok.
  assert (Hread : SizeTable_read h self db m0
                  = (inr tt, adapted_values h self
                               (execute_values db SizeTable_query) ∅)).
  { unfold SizeTable_read, mbind, M_bind, modify.
    by apply for_each_store_returns. }
  rewrite Hread. cbn [fst snd]. split; [done|]. split.
  - intros pre post book x v -> Hpost Hv. by apply adapted_values_last.
  - intros book Hnot. by rewrite adapted_values_absent.
Qed.

Lemma size_read_needs_no_metadata_witness :
  let db := rows_db [(1, RInt 250); (2, RNull)] [] [] [] in
  (SizeTable_read failing_env bare_table db {[ 9 := VNone ]}).1 = inr tt
  /\ (SizeTable_read failing_env bare_table db {[ 9 := VNone ]}).2 !! 1
     = Some (VInt 250)
  /\ (SizeTable_read failing_env bare_table db {[ 9 := VNone ]}).2 !! 9 = None
  /\ (OneToOneTable_read failing_env bare_table db {[ 9 := VNone ]}).1
     = inl KeyError.
Proof.
  cbv zeta.
  destruct (size_read_needs_no_metadata failing_env bare_table
              (rows_db [(1, RInt 250); (2, RNull)] [] [] []) {[ 9 := VNone ]})
    as (Hret & Hlast & Habsent).
  - intros row _. by eexists.
  - split; [exact Hret|]. split; [|split].
    + apply (Hlast [] [(2, RNull)] 1 (RInt 250)); try reflexivity.
      cbn. intros Hin. apply list_elem_of_singleton in Hin. discriminate.
    + apply Habsent. cbn. intros Hin.
      repeat (apply elem_of_cons in Hin as [Hin|Hin]; [discriminate|]).
      by apply elem_of_nil in Hin.
    + reflexivity.
Defined.

(** X11: read from the store of a library (the store modelled from the
    spec, answering the text of the size query), a size table with the
    pass-through adapter has an entry for every book of the [books] table
    and for no other id; a book without any stored size (no file, or files
    with NULL sizes only) has the entry [None], since the MAX of the
    subquery is NULL for it. *)
Theorem size_read_covers_every_book (h : handler) (self : Table)
  (lib : library) (m0 : gmap Z value) :
  adapt self = adapt_identity ->
  (SizeTable_read h self (sqlite lib) m0).1 = inr tt
  /\ (forall book,
        book ∈ lib_books lib <->
        is_Some ((SizeTable_read h self (sqlite lib) m0).2 !! book))
  /\ (forall book,
        book ∈ lib_books lib -> stored_sizes lib book = [] ->
        (SizeTable_read h self (sqlite lib) m0).2 !! book = Some VNone).
Proof.
  intros Had.
  assert (Hread : SizeTable_read h self (sqlite lib) m0
                  = (inr tt,
                     raw_values
                       (map (fun book =>
                               (book, sql_max (stored_sizes lib book)))
                            (lib_books lib)) ∅)).
  { unfold SizeTable_read, mbind, M_bind, modify.
    rewrite <- sqlite_size_query. by apply for_each_store_identity. }
  rewrite Hread. cbn [fst snd]. split; [done|].
  assert (Hin : forall book, book ∈ lib_books lib ->
            raw_values
              (map (fun book => (book, sql_max (stored_sizes lib book)))
                   (lib_books lib)) ∅ !! book
            = Some (of_raw (sql_max (stored_sizes lib book)))).
  { intros book Hbook.
    by rewrite (raw_values_per_book
                  (fun b => sql_max (stored_sizes lib b))). }
  split.
  - intros book. split; [intros Hbook; rewrite Hin; by eauto|].
    intros [v Hv]. destruct (decide (book ∈ lib_books lib)) as [|Hnot]; [done|].
    exfalso. revert Hv.
    assert (Hfst : forall bs : list Z,
              map fst
                (map (fun book => (book, sql_max (stored_sizes lib book))) bs)
              = bs).
    { induction bs as [|b bs IH]; [done|]. cbn [map fst]. by rewrite IH. }
    rewrite <- (Hfst (lib_books lib)) in Hnot.
    generalize (map (fun book => (book, sql_max (stored_sizes lib book)))
                    (lib_books lib)) Hnot.
    clear. intros rows Hnot.
    assert (Hgen : forall m : gmap Z value,
              raw_values rows m !! book = m !! book).
    { unfold raw_values. induction rows as [|row rows IH]; intros m; [done|].
      cbn [foldl]. rewrite IH by (intros Hin; apply Hnot; cbn; by right).
      rewrite lookup_insert_ne; [done|].
      intros Heq. apply Hnot. cbn. rewrite Heq. by left. }
    by rewrite Hgen, lookup_empty.
  - intros book Hbook Hsizes. rewrite Hin by done. by rewrite Hsizes.
Qed.

Lemma size_read_covers_every_book_witness :
  let lib := mkLibrary [1; 2]
               [mkDataRow 1 (Some "EPUB") (Some 100) (RText "book");
                mkDataRow 2 (Some "PDF") None (RText "other")] in
  (SizeTable_read failing_env size_table (sqlite lib) ∅).1 = inr tt
  /\ (SizeTable_read failing_env size_table (sqlite lib) ∅).2 !! 2
     = Some VNone.
Proof.
  cbv zeta.
  destruct (size_read_covers_every_book failing_env size_table
              (mkLibrary [1; 2]
                 [mkDataRow 1 (Some "EPUB") (Some 100) (RText "book");
                  mkDataRow 2 (Some "PDF") None (RText "other")]) ∅)
    as (Hret & _ & Hnone); [reflexivity|].
  split; [exact Hret|]. apply Hnone; [|reflexivity].
  right. by left.
Defined.

(* ===================================================================== *)
(** ** Further properties: the id-map pass and [read] of ManyToOneTable *)
(* ===================================================================== *)

(** One turn of the loop of [ManyToOneTable.read_id_maps]. *)
Lemma id_row_spec {K V : Type} `{Countable K} (h : handler) (self : Table)
  (row : Z * raw) (s : maps K V) :
  id_body h self row s
  = if truthy row.2
    then match adapted h self row.2 with
         | inr v => (inr tt, set_id_map <[row.1 := v]> s)
         | inl e => (inl e, s)
         end
    else (inr tt, s).
Proof.
  unfold when, adapted, mbind, M_bind, perform, modify.
  destruct (truthy row.2); [|done].
  by destruct (result h (adapt self row.2)).
Qed.

(** The loop changes the id map only, and what it does depends on the id map
    only. *)
Lemma id_loop_frame {K V : Type} `{Countable K} (h : handler) (self : Table)
  (rows : list (Z * raw)) (s : maps K V) :
  exists (r : exn + unit) (m : gmap Z value),
    forall s2 : maps K V,
      id_map s2 = id_map s ->
      for_each rows (id_body h self) s2
      = (r, mkMaps m (extra_map s2) (col_book_map s2) (book_col_map s2)
                   (alink_map s2)).
Proof.
  revert s. induction rows as [|row rows IH]; intros s.
  - exists (inr tt), (id_map s). intros s2 <-. by destruct s2.
  - pose proof (fun s0 : maps K V => id_row_spec h self row s0) as Hrow.
    destruct (truthy row.2).
    + destruct (adapted h self row.2) as [e|v].
      * exists (inl e), (id_map s). intros s2 <-.
        rewrite (for_each_raises (id_body h self) row rows _ _ _ (Hrow s2)).
        by destruct s2.
      * destruct (IH (set_id_map <[row.1 := v]> s)) as (r & m & Hs).
        exists r, m. intros s2 Hid.
        rewrite (for_each_cons (id_body h self) row rows _ _ (Hrow s2)).
        rewrite (Hs (set_id_map <[row.1 := v]> s2)); [done|].
        cbn. by rewrite Hid.
    + destruct (IH s) as (r & m & Hs).
      exists r, m. intros s2 Hid.
      rewrite (for_each_cons (id_body h self) row rows _ _ (Hrow s2)). by apply Hs.
Qed.

(** When no adaptation of a truthy name raises, the loop returns with the id
    map of [named_values]. *)
Lemma id_loop_returns {K V : Type} `{Countable K} (h : handler) (self : Table)
  (rows : list (Z * raw)) (s : maps K V) :
  (forall row, row ∈ rows -> truthy row.2 = true ->
               returns (adapted h self row.2)) ->
  (for_each rows (id_body h self) s).1 = inr tt
  /\ id_map (for_each rows (id_body h self) s).2
     = named_values h self rows (id_map s).
Proof.
  revert s. induction rows as [|row rows IH]; intros s Hok; [done|].
  pose proof (id_row_spec h self row s) as Hrow.
  unfold named_values.
  destruct (truthy row.2) eqn:Ht.
  - destruct (Hok row) as [v Hv]; [by left|done|]. rewrite Hv in Hrow.
    rewrite (for_each_cons (id_body h self) row rows _ _ Hrow).
    rewrite filter_cons_True by done.
    destruct (IH (set_id_map <[row.1 := v]> s)) as [Hr Hm];
      [intros r Hr; apply Hok; by right|].
    split; [done|]. rewrite Hm. unfold named_values, adapted_values.
    cbn [foldl]. by rewrite Hv.
  - rewrite (for_each_cons (id_body h self) row rows _ _ Hrow).
    rewrite filter_cons_False by (by rewrite Ht).
    apply IH. intros r Hr. apply Hok. by right.
Qed.

(** X12: [ManyToOneTable.read_id_maps], when the metadata names the column
    and the table and no adaptation of a non-empty name raises, returns; an
    id then has the adapted name of its last row with a truthy name, rows
    with a NULL or empty name after it do not erase it, and an id that has
    only such rows keeps what the id map held for it. *)
Theorem many_to_one_id_map_names (h : handler) (self : Table) (db : database)
  (q : string) (s : maps Z Z) :
  ManyToOneTable_id_query self = inr q ->
  (forall row, row ∈ execute_values db q -> truthy row.2 = true ->
               returns (adapted h self row.2)) ->
  (ManyToOneTable_read_id_maps h self db s).1 = inr tt
  /\ (forall pre post id nm v,
        execute_values db q = pre ++ (id, nm) :: post ->
        truthy nm = true ->
        (forall nm', (id, nm') ∈ post -> truthy nm' = false) ->
        adapted h self nm = inr v ->
        id_map (ManyToOneTable_read_id_maps h self db s).2 !! id = Some v)
  /\ (forall id,
        (forall nm, (id, nm) ∈ execute_values db q -> truthy nm = false) ->
        id_map (ManyToOneTable_read_id_maps h self db s).2 !! id
        = id_map s !! id).
Proof.
  intros Hq Hok.
  assert (Hread : ManyToOneTable_read_id_maps h self db s
                  = for_each (execute_values db q) (id_body h self) s).
  { unfold ManyToOneTable_read_id_maps, mbind at 1, M_bind at 1, eval.
    by rewrite Hq. }
  rewrite Hread.
  destruct (id_loop_returns h self (execute_values db q) s Hok) as [Hr Hm].
  split; [exact Hr|]. rewrite Hm. unfold named_values.
  assert (Hkeys : forall (rows : list (Z * raw)) (id : Z),
            (forall nm, (id, nm) ∈ rows -> truthy nm = false) ->
            id ∉ map fst (filter (fun row => truthy row.2 = true) rows)).
  { intros rows id Hfalsy Hin. apply list_elem_of_fmap in Hin as ([i nm] & -> & Hin).
    apply list_elem_of_filter in Hin as [Ht Hin]. cbn in Ht.
    by rewrite (Hfalsy nm Hin) in Ht. }
  split.
  - intros pre post id nm v -> Ht Hpost Hv.
    rewrite filter_app, filter_cons_True by done.
    apply adapted_values_last; [by apply Hkeys | done].
  - intros id Hfalsy. rewrite adapted_values_absent; [done | by apply Hkeys].
Qed.

Lemma many_to_one_id_map_names_witness :
  let db := rows_db [(10, RText "Dune"); (11, RText ""); (10, RNull)] [] [] [] in
  (ManyToOneTable_read_id_maps failing_env series_table db
     (empty_maps (K := Z) (V := Z))).1 = inr tt
  /\ id_map (ManyToOneTable_read_id_maps failing_env series_table db
               (empty_maps (K := Z) (V := Z))).2 !! 10
     = Some (VText "Dune")
  /\ id_map (ManyToOneTable_read_id_maps failing_env series_table db
               (empty_maps (K := Z) (V := Z))).2 !! 11
     = None.
Proof.
  cbv zeta.
  destruct (many_to_one_id_map_names failing_env series_table
              (rows_db [(10, RText "Dune"); (11, RText ""); (10, RNull)]
                       [] [] [])
              "SELECT id, name FROM series" empty_maps)
    as (Hret & Hlast & Hkeep).
  - reflexivity.
  - intros row _ _. by eexists.
  - split; [exact Hret|]. split.
    + apply (Hlast [] [(11, RText ""); (10, RNull)] 10 (RText "Dune"));
        try reflexivity.
      intros nm' Hin.
      apply elem_of_cons in Hin as [[=]|Hin].
      apply list_elem_of_singleton in Hin. by injection Hin as ->.
    + rewrite Hkeep; [reflexivity|]. intros nm Hin.
      apply elem_of_cons in Hin as [[=]|Hin].
      apply elem_of_cons in Hin as [[= ->]|Hin]; [done|].
      apply list_elem_of_singleton in Hin. discriminate.
Defined.

(** X13: however it ends, [ManyToOneTable.read_id_maps] writes to the id map
    only: the extra map, both indices and the link map are as they were; and
    when the metadata has no ['name'] or no ['table'] entry it raises
    [KeyError] with the id map untouched as well. *)
Theorem many_to_one_id_pass_frame (h : handler) (self : Table) (db : database)
  (s : maps Z Z) :
  extra_map (ManyToOneTable_read_id_maps h self db s).2 = extra_map s
  /\ col_book_map (ManyToOneTable_read_id_maps h self db s).2 = col_book_map s
  /\ book_col_map (ManyToOneTable_read_id_maps h self db s).2 = book_col_map s
  /\ alink_map (ManyToOneTable_read_id_maps h self db s).2 = alink_map s
  /\ (metadata self !! "name" = None \/ metadata self !! "table" = None ->
      ManyToOneTable_read_id_maps h self db s = (inl KeyError, s)).
Proof.
  unfold ManyToOneTable_read_id_maps, mbind, M_bind, eval,
    ManyToOneTable_id_query, dict_getitem.
  destruct (metadata self !! "name") as [nm|];
    [destruct (metadata self !! "table") as [tb|]|];
    try (repeat split; try done; by intros _).
  destruct (id_loop_frame h self
              (execute_values db
                 ("SELECT id, " +:+ py_str nm +:+ " FROM " +:+ py_str tb)) s)
    as (r & m & Hs).
  specialize (Hs s eq_refl). unfold mbind, M_bind in Hs. rewrite Hs. cbn.
  repeat split; try done. by intros [?|?].
Qed.

(** From states that agree on the four maps, the id-map pass ends the same
    way and leaves states that agree on them. *)
Lemma id_pass_same {K V : Type} `{Countable K} (h : handler) (self : Table)
  (db : database) (s1 s2 : maps K V) :
  same_maps s1 s2 ->
  (ManyToOneTable_read_id_maps h self db s1).1
  = (ManyToOneTable_read_id_maps h self db s2).1
  /\ same_maps (ManyToOneTable_read_id_maps h self db s1).2
               (ManyToOneTable_read_id_maps h self db s2).2.
Proof.
  intros (Hid & Hex & Hcb & Hbc).
  unfold ManyToOneTable_read_id_maps, mbind at 1 3 5 7, M_bind at 1 3 5 7, eval.
  destruct (ManyToOneTable_id_query self) as [e|q]; [done|].
  destruct (id_loop_frame h self (execute_values db q) s1) as (r & m & Hs).
  rewrite (Hs s1 eq_refl), (Hs s2 (eq_sym Hid)). by unfold same_maps.
Qed.

(** Creating the list of a key keeps the agreement. *)
Lemma ensure_col_same {K V : Type} `{Countable K} (key : K)
  (s1 s2 : maps K V) :
  same_maps s1 s2 -> same_maps (ensure_col key s1).2 (ensure_col key s2).2.
Proof.
  intros (Hid & Hex & Hcb & Hbc). rewrite !ensure_col_spec. cbn [snd].
  rewrite Hcb. destruct (not_in key (col_book_map s2)); [|done].
  unfold same_maps. cbn. by rewrite Hcb.
Qed.

(** [read] is the id-map pass from the reset state followed, when it
    returned, by the link pass. *)
Lemma ManyToOneTable_read_unfold (h : handler) (self : Table) (db : database)
  (s : maps Z Z) :
  ManyToOneTable_read h self db s
  = match ManyToOneTable_read_id_maps h self db (reset_maps s) with
    | (inl e, t) => (inl e, t)
    | (inr _, t) => ManyToOneTable_read_maps self db t
    end.
Proof. reflexivity. Qed.

Lemma ManyToManyTable_read_unfold (h : handler) (self : Table) (db : database)
  (s : maps Z (list Z)) :
  ManyToManyTable_read h self db s
  = match ManyToOneTable_read_id_maps h self db (reset_maps s) with
    | (inl e, t) => (inl e, t)
    | (inr _, t) => ManyToManyTable_read_maps self db t
    end.
Proof. reflexivity. Qed.

(** X14: [read] of a [ManyToOneTable] or of a [ManyToManyTable] starts from
    four empty maps: how it ends and what it leaves in the id map, the extra
    map and the two indices does not depend on what these held before, so
    nothing of an earlier read survives a later one. *)
Theorem read_forgets_previous_maps (h : handler) (self : Table) (db : database) :
  (forall s1 s2 : maps Z Z,
     (ManyToOneTable_read h self db s1).1 = (ManyToOneTable_read h self db s2).1
     /\ same_maps (ManyToOneTable_read h self db s1).2
                  (ManyToOneTable_read h self db s2).2)
  /\ (forall s1 s2 : maps Z (list Z),
        (ManyToManyTable_read h self db s1).1
        = (ManyToManyTable_read h self db s2).1
        /\ same_maps (ManyToManyTable_read h self db s1).2
                     (ManyToManyTable_read h self db s2).2).
Proof.
  split; intros s1 s2.
  - rewrite !ManyToOneTable_read_unfold.
    destruct (id_pass_same h self db (reset_maps s1) (reset_maps s2))
      as [Hr Hsame]; [done|].
    destruct (ManyToOneTable_read_id_maps h self db (reset_maps s1))
      as [[e1|[]] t1];
      destruct (ManyToOneTable_read_id_maps h self db (reset_maps s2))
        as [[e2|[]] t2]; cbn [fst snd] in *; try done.
    unfold ManyToOneTable_read_maps, mbind, M_bind, eval.
    destruct (ManyToOneTable_link_query self) as [e|q]; [done|].
    destruct (execute_links db q) as [|row rows]; [done|].
    rewrite !(for_each_raises _ _ _ _ _ _ (ManyToOneTable_link_row_raises _ _)).
    split; [done|]. by apply ensure_col_same.
  - rewrite !ManyToManyTable_read_unfold.
    destruct (id_pass_same h self db (reset_maps s1) (reset_maps s2))
      as [Hr Hsame]; [done|].
    destruct (ManyToOneTable_read_id_maps h self db (reset_maps s1))
      as [[e1|[]] t1];
      destruct (ManyToOneTable_read_id_maps h self db (reset_maps s2))
        as [[e2|[]] t2]; cbn [fst snd] in *; try done.
    unfold ManyToManyTable_read_maps, mbind, M_bind, eval.
    destruct (ManyToOneTable_link_query self) as [e|q]; [done|].
    destruct (execute_links db q) as [|row rows]; [done|].
    rewrite !(for_each_raises _ _ _ _ _ _ (ManyToManyTable_link_row_raises _ _)).
    split; [done|]. by apply ensure_col_same.
Qed.

(* ===================================================================== *)
(** ** Further properties: IdentifiersTable *)
(* ===================================================================== *)

(** One turn of the loop of [IdentifiersTable.read_maps]. *)
Lemma IdentifiersTable_link_row_spec (row : Z * option string * raw)
  (s : pair_maps) :
  IdentifiersTable_link_row row s
  = if identifier_skipped row then (inr tt, s)
    else (inl AttributeError,
          match row.1.2 with
          | Some ty => (ensure_col ty s).2
          | None => s
          end).
Proof.
  destruct row as [[book [ty|]] val]; [|done].
  unfold identifier_skipped, IdentifiersTable_link_row. cbn [fst snd].
  destruct (is_none val); [done|].
  unfold mbind, M_bind. rewrite ensure_col_spec. cbn [snd].
  by rewrite col_book_map_append_raises.
Qed.

Lemma IdentifiersTable_loop_spec (rows : list (Z * option string * raw))
  (s : pair_maps) :
  ((for_each rows IdentifiersTable_link_row s).1 = inr tt
   <-> forall row, row ∈ rows -> identifier_skipped row = true)
  /\ ((for_each rows IdentifiersTable_link_row s).1 = inr tt ->
      (for_each rows IdentifiersTable_link_row s).2 = s)
  /\ ((for_each rows IdentifiersTable_link_row s).1 <> inr tt ->
      (for_each rows IdentifiersTable_link_row s).1 = inl AttributeError)
  /\ book_col_map (for_each rows IdentifiersTable_link_row s).2
     = book_col_map s
  /\ id_map (for_each rows IdentifiersTable_link_row s).2 = id_map s.
Proof.
  induction rows as [|row rows IH].
  - repeat split; try done. intros _ row Hin. by apply elem_of_nil in Hin.
  - pose proof (IdentifiersTable_link_row_spec row s) as Hrow.
    destruct (identifier_skipped row) eqn:Hskip.
    + rewrite (for_each_cons _ _ _ _ _ Hrow).
      destruct IH as (Hiff & Hstate & Hexn & Hfw & Hid).
      repeat split; try done.
      * intros Hret r Hr. apply elem_of_cons in Hr as [->|Hr]; [done|].
        by apply Hiff.
      * intros Hall. apply Hiff. intros r Hr. apply Hall. by right.
    + rewrite (for_each_raises _ _ _ _ _ _ Hrow). cbn [fst snd].
      repeat split; try done.
      * intros Hall. specialize (Hall row ltac:(by left)). congruence.
      * destruct row.1.2 as [ty|]; [|done]. rewrite ensure_col_spec.
        by destruct (not_in ty (col_book_map s)).
      * destruct row.1.2 as [ty|]; [|done]. rewrite ensure_col_spec.
        by destruct (not_in ty (col_book_map s)).
Qed.

(** X15: [IdentifiersTable.read] passes over every row whose type or whose
    val is NULL; it returns exactly when all rows are such, and then all four
    maps are empty.  Any other row makes it raise [AttributeError], and in
    no case does an identifier reach the forward index or the id map. *)
Theorem identifiers_read_returns_iff (self : Table) (db : database)
  (s : pair_maps) :
  ((IdentifiersTable_read self db s).1 = inr tt
   <-> forall row,
         row ∈ execute_files db "SELECT book, type, val FROM identifiers" ->
         identifier_skipped row = true)
  /\ ((IdentifiersTable_read self db s).1 = inr tt ->
      (IdentifiersTable_read self db s).2 = reset_maps s)
  /\ ((IdentifiersTable_read self db s).1 <> inr tt ->
      (IdentifiersTable_read self db s).1 = inl AttributeError)
  /\ book_col_map (IdentifiersTable_read self db s).2 = ∅
  /\ id_map (IdentifiersTable_read self db s).2 = ∅.
Proof.
  assert (Hread : IdentifiersTable_read self db s
                  = for_each
                      (execute_files db "SELECT book, type, val FROM identifiers")
                      IdentifiersTable_link_row (reset_maps s)) by reflexivity.
  rewrite Hread. apply IdentifiersTable_loop_spec.
Qed.

(* ===================================================================== *)
(** ** Further properties: the sort keys and links of AuthorsTable *)
(* ===================================================================== *)

(** A loop over [pre ++ rest] whose turns over [pre] return goes on with
    [rest]. *)
Lemma for_each_app {S R : Type} (body : R -> M S unit) (pre rest : list R)
  (s s1 : S) :
  for_each pre body s = (inr tt, s1) ->
  for_each (pre ++ rest) body s = for_each rest body s1.
Proof.
  revert s. induction pre as [|row pre IH]; intros s Hpre.
  - by injection Hpre as <-.
  - cbn [app for_each] in *. unfold mbind, M_bind in *.
    destruct (body row s) as [[e|[]] s0]; [discriminate Hpre|]. by apply IH.
Qed.

(** One turn of the loop of [AuthorsTable.read_id_maps], in full: the name
    is written first; the sort key and the link are written only when the
    sort key could be computed. *)
Lemma AuthorsTable_id_row_full {K V : Type} `{Countable K} (h : handler)
  (row : Z * raw * raw * raw) (s : maps K V) :
  AuthorsTable_id_row h row s
  = match sort_key h row with
    | inr v =>
        (inr tt,
         mkMaps (<[row.1.1.1 := of_raw row.1.1.2]> (id_map s))
                (<[row.1.1.1 := v]> (extra_map s))
                (col_book_map s) (book_col_map s)
                (<[row.1.1.1 := of_raw row.2]> (alink_map s)))
    | inl e => (inl e, set_id_map <[row.1.1.1 := of_raw row.1.1.2]> s)
    end.
Proof.
  destruct row as [[[id nm] sort] link].
  unfold AuthorsTable_id_row, sort_key, mbind, M_bind, modify, perform, result.
  cbn [fst snd]. destruct (truthy sort); [done|]. cbn [run snd].
  by destruct (h value (AuthorToAuthorSort nm)).
Qed.

(** The loop, when every sort key can be computed. *)
Lemma AuthorsTable_loop_full {K V : Type} `{Countable K} (h : handler)
  (rows : list (Z * raw * raw * raw)) (s : maps K V) :
  (forall row, row ∈ rows -> returns (sort_key h row)) ->
  exists s',
    for_each rows (AuthorsTable_id_row h) s = (inr tt, s')
    /\ (forall pre post row v,
          rows = pre ++ row :: post ->
          row.1.1.1 ∉ map (fun r => r.1.1.1) post ->
          sort_key h row = inr v ->
          extra_map s' !! row.1.1.1 = Some v
          /\ alink_map s' !! row.1.1.1 = Some (of_raw row.2))
    /\ (forall id,
          id ∉ map (fun r => r.1.1.1) rows ->
          extra_map s' !! id = extra_map s !! id
          /\ alink_map s' !! id = alink_map s !! id).
Proof.
  revert s. induction rows as [|row rows IH]; intros s Hok.
  - exists s. split; [done|]. split; [|done].
    intros pre post row v Hnil. by destruct pre.
  - destruct (Hok row) as [v Hv]; [by left|].
    pose proof (AuthorsTable_id_row_full h row s) as Hrow. rewrite Hv in Hrow.
    destruct (IH (mkMaps (<[row.1.1.1 := of_raw row.1.1.2]> (id_map s))
                         (<[row.1.1.1 := v]> (extra_map s))
                         (col_book_map s) (book_col_map s)
                         (<[row.1.1.1 := of_raw row.2]> (alink_map s))))
      as (s' & Hrest & Hlast & Hkeep); [intros r Hr; apply Hok; by right|].
    exists s'. split; [by rewrite (for_each_cons _ _ _ _ _ Hrow)|]. split.
    + intros pre post row' v' Hrows Hpost Hv'. destruct pre as [|r0 pre].
      * cbn in Hrows. injection Hrows as <- <-.
        destruct (Hkeep row.1.1.1 Hpost) as [-> ->].
        cbn [extra_map alink_map]. rewrite !lookup_insert_eq.
        by rewrite Hv in Hv'; injection Hv' as <-.
      * cbn in Hrows. injection Hrows as _ ->. by eapply Hlast.
    + intros id Hnot.
      destruct (Hkeep id) as [-> ->]; [intros Hin; apply Hnot; cbn; by right|].
      cbn [extra_map alink_map].
      rewrite !lookup_insert_ne; [done| |];
        intros Heq; apply Hnot; cbn; rewrite Heq; by left.
Qed.

(** X16: when every sort key can be computed, [AuthorsTable.read_id_maps]
    leaves, for the last row (id, name, sort, link) of an id, the sort field
    itself as the sort key if it is non-empty and otherwise what
    [author_to_author_sort(name)] returned, never the empty sort field, and
    the link as the store returned it; the link map is rebuilt from the rows
    alone, an id without a row has no link. *)
Theorem authors_sort_keys_and_links (h : handler) (self : Table)
  (db : database) (s : maps Z (list Z)) :
  (forall row,
     row ∈ execute_authors db "SELECT id, name, sort, link FROM authors" ->
     returns (sort_key h row)) ->
  (AuthorsTable_read_id_maps h self db s).1 = inr tt
  /\ (forall pre post id nm sort link,
        execute_authors db "SELECT id, name, sort, link FROM authors"
        = pre ++ (id, nm, sort, link) :: post ->
        id ∉ map (fun r => r.1.1.1) post ->
        (if truthy sort
         then extra_map (AuthorsTable_read_id_maps h self db s).2 !! id
              = Some (of_raw sort)
         else exists v, h value (AuthorToAuthorSort nm) = inr v
                /\ extra_map (AuthorsTable_read_id_maps h self db s).2 !! id
                   = Some v)
        /\ alink_map (AuthorsTable_read_id_maps h self db s).2 !! id
           = Some (of_raw link))
  /\ (forall id,
        id ∉ map (fun r => r.1.1.1)
               (execute_authors db "SELECT id, name, sort, link FROM authors") ->
        alink_map (AuthorsTable_read_id_maps h self db s).2 !! id = None
        /\ extra_map (AuthorsTable_read_id_maps h self db s).2 !! id
           = extra_map s !! id).
Proof.
  intros Hok.
  assert (Hread : AuthorsTable_read_id_maps h self db s
                  = for_each
                      (execute_authors db
                         "SELECT id, name, sort, link FROM authors")
                      (AuthorsTable_id_row h) (set_alink_map (fun _ => ∅) s))
    by reflexivity.
  rewrite Hread.
  destruct (AuthorsTable_loop_full h _ (set_alink_map (fun _ => ∅) s) Hok)
    as (s' & -> & Hlast & Hkeep).
  cbn [fst snd]. split; [done|]. split.
  - intros pre post id nm sort link Hrows Hpost.
    destruct (Hok (id, nm, sort, link)) as [v Hv].
    { rewrite Hrows. apply elem_of_app. right. by left. }
    destruct (Hlast pre post (id, nm, sort, link) v Hrows Hpost Hv)
      as [Hextra Hlink].
    split; [|exact Hlink]. unfold sort_key in Hv. cbn [fst snd] in *.
    destruct (truthy sort); [by injection Hv as <- | eauto].
  - intros id Hnot. destruct (Hkeep id Hnot) as [-> ->].
    cbn. by rewrite lookup_empty.
Qed.

Lemma authors_sort_keys_and_links_witness :
  let db := rows_db [] []
              [(7, RText "John Smith", RText "", RText "http://x");
               (8, RText "Ann Lee", RText "Lee, Ann", RNull)] [] in
  let out := AuthorsTable_read_id_maps plain_env authors_table db
               (empty_maps (K := Z) (V := list Z)) in
  out.1 = inr tt
  /\ extra_map out.2 !! 7 = Some (VText "John Smith")
  /\ alink_map out.2 !! 7 = Some (VText "http://x")
  /\ extra_map out.2 !! 8 = Some (VText "Lee, Ann").
Proof.
  cbv zeta.
  destruct (authors_sort_keys_and_links plain_env authors_table
              (rows_db [] []
                 [(7, RText "John Smith", RText "", RText "http://x");
                  (8, RText "Ann Lee", RText "Lee, Ann", RNull)] [])
              empty_maps) as (Hret & Hlast & _).
  - intros row _. unfold sort_key. destruct (truthy row.1.2); by eexists.
  - split; [exact Hret|].
    destruct (Hlast [] [(8, RText "Ann Lee", RText "Lee, Ann", RNull)]
                7 (RText "John Smith") (RText "") (RText "http://x"))
      as [(v & Hv & Hextra) Hlink]; [reflexivity| |].
    { cbn. intros Hin. apply list_elem_of_singleton in Hin. discriminate. }
    destruct (Hlast [(7, RText "John Smith", RText "", RText "http://x")] []
                8 (RText "Ann Lee") (RText "Lee, Ann") RNull)
      as [Hextra8 _]; [reflexivity|apply not_elem_of_nil|].
    injection Hv as <-. by repeat split.
Defined.

(** X17: when the sort key of a row cannot be computed
    ([author_to_author_sort] raises on a row without a sort field),
    [AuthorsTable.read_id_maps] raises that exception with the maps out of
    step: the name of the row is already in the id map, while its sort key
    and its link are not written. *)
Theorem authors_pass_stops_after_name (h : handler) (self : Table)
  (db : database) (s : maps Z (list Z))
  (pre post : list (Z * raw * raw * raw)) (id : Z) (nm sort link : raw)
  (e : exn) :
  execute_authors db "SELECT id, name, sort, link FROM authors"
  = pre ++ (id, nm, sort, link) :: post ->
  (forall row, row ∈ pre -> returns (sort_key h row)) ->
  sort_key h (id, nm, sort, link) = inl e ->
  id ∉ map (fun r => r.1.1.1) pre ->
  (AuthorsTable_read_id_maps h self db s).1 = inl e
  /\ id_map (AuthorsTable_read_id_maps h self db s).2 !! id = Some (of_raw nm)
  /\ extra_map (AuthorsTable_read_id_maps h self db s).2 !! id
     = extra_map s !! id
  /\ alink_map (AuthorsTable_read_id_maps h self db s).2 !! id = None.
Proof.
  intros Hrows Hok He Hnot.
  assert (Hread : AuthorsTable_read_id_maps h self db s
                  = for_each
                      (execute_authors db
                         "SELECT id, name, sort, link FROM authors")
                      (AuthorsTable_id_row h) (set_alink_map (fun _ => ∅) s))
    by reflexivity.
  rewrite Hread, Hrows.
  destruct (AuthorsTable_loop_full h pre (set_alink_map (fun _ => ∅) s) Hok)
    as (s1 & Hpre & _ & Hkeep).
  rewrite (for_each_app _ _ _ _ _ Hpre).
  pose proof (AuthorsTable_id_row_full h (id, nm, sort, link) s1) as Hrow.
  rewrite He in Hrow. rewrite (for_each_raises _ _ _ _ _ _ Hrow).
  cbn [fst snd set_id_map id_map extra_map alink_map].
  destruct (Hkeep id Hnot) as [-> ->].
  split; [done|]. split; [apply lookup_insert_eq|]. split; [done|].
  cbn. by rewrite lookup_empty.
Qed.

Lemma authors_pass_stops_after_name_witness :
  let db := rows_db [] []
              [(8, RText "Ann Lee", RText "Lee, Ann", RNull);
               (7, RText "John Smith", RNull, RNull)] [] in
  let out := AuthorsTable_read_id_maps fast_env authors_table db
               (empty_maps (K := Z) (V := list Z)) in
  out.1 = inl ValueError
  /\ id_map out.2 !! 7 = Some (VText "John Smith")
  /\ extra_map out.2 !! 7 = None
  /\ alink_map out.2 !! 7 = None.
Proof.
  cbv zeta.
  apply (authors_pass_stops_after_name fast_env authors_table
           (rows_db [] []
              [(8, RText "Ann Lee", RText "Lee, Ann", RNull);
               (7, RText "John Smith", RNull, RNull)] [])
           empty_maps [(8, RText "Ann Lee", RText "Lee, Ann", RNull)] []
           7 (RText "John Smith") RNull RNull ValueError).
  - reflexivity.
  - intros row Hrow. apply list_elem_of_singleton in Hrow as ->. by eexists.
  - reflexivity.
  - cbn. intros Hin. apply list_elem_of_singleton in Hin. discriminate.
Defined.

(* ===================================================================== *)
(** ** Further properties: how [read] composes the two passes *)
(* ===================================================================== *)

(** X18: [ManyToOneTable.read] is the id-map pass from four empty maps
    followed by the link pass.  An exception of the id-map pass is the
    outcome of [read] and the link pass is not run.  [read] returns exactly
    when the id-map pass returns, the metadata has a ['link_column'] entry
    and the link table has no row; what it then leaves is what the id-map
    pass left, with both indices empty. *)
Theorem many_to_one_read_returns_iff (h : handler) (self : Table)
  (db : database) (s : maps Z Z) :
  (forall e,
     (ManyToOneTable_read_id_maps h self db (reset_maps s)).1 = inl e ->
     ManyToOneTable_read h self db s
     = ManyToOneTable_read_id_maps h self db (reset_maps s))
  /\ ((ManyToOneTable_read h self db s).1 = inr tt
      <-> (ManyToOneTable_read_id_maps h self db (reset_maps s)).1 = inr tt
          /\ exists q, ManyToOneTable_link_query self = inr q
                       /\ execute_links db q = [])
  /\ ((ManyToOneTable_read h self db s).1 = inr tt ->
      (ManyToOneTable_read h self db s).2
      = (ManyToOneTable_read_id_maps h self db (reset_maps s)).2
      /\ col_book_map (ManyToOneTable_read h self db s).2 = ∅
      /\ book_col_map (ManyToOneTable_read h self db s).2 = ∅).
Proof.
  rewrite ManyToOneTable_read_unfold.
  destruct (ManyToOneTable_read_id_maps h self db (reset_maps s))
    as [[e|[]] t] eqn:Hid.
  - cbn [fst snd]. split; [done|]. split; [|done].
    split; [done | by intros [? _]].
  - destruct (ManyToOneTable_read_id_maps_indices _ _ _ _ _ _ Hid)
      as [Hcb Hbc].
    cbn [fst snd]. split; [by intros e [=]|].
    unfold ManyToOneTable_read_maps, mbind, M_bind, eval.
    destruct (ManyToOneTable_link_query self) as [e|q].
    + cbn [fst snd]. split; [|done].
      split; [done | by intros [_ (q & [=] & _)]].
    + destruct (execute_links db q) as [|row rows] eqn:Hrows.
      * cbn. split; [|by rewrite Hcb, Hbc].
        split; [|done]. intros _. split; [done|]. by exists q.
      * rewrite (for_each_raises _ _ _ _ _ _
                   (ManyToOneTable_link_row_raises _ _)).
        cbn [fst snd]. split; [|done].
        split; [done|]. intros [_ (q' & [= <-] & Hnil)]. congruence.
Qed.
